(** * BufferedStream: a shallow embedding of src/bufferedstream.js

    The stream object is a record of its fields; the methods are programs of
    a small state-and-exception monad over a [world] made of the stream, the
    queue of callbacks handed to [process.nextTick], and the log of the
    events handed to [emit].

    Modelling choices, all of them about what lies outside the file:
    - numbers are integers ([Z]): [size] is a sum of [chunk.length]s and
      [maxSize] is taken to be an integer;
    - a chunk is a [Buffer], a list of bytes; a string argument is turned into
      one by [new Buffer(chunk, encoding)], which is a parameter here and
      stands for the constructor on the arguments it accepts: the error it
      throws on an encoding it does not know is the library's and has no
      counterpart here;
    - the listeners are the consumer's.  A "data" listener may call [pause()]
      on the stream before it returns, as the one that [pipe] installs does
      when the destination is full; which chunks make it do so is a
      parameter.  Listeners call nothing else while the stream is emitting;
    - [process.nextTick] appends a callback to a FIFO queue; the environment
      may call any method between two callbacks. *)

From Stdlib Require Import String Strings.Byte List ZArith Bool Lia Arith ZifyBool.
Import ListNotations.
Local Open Scope Z_scope.

Set Implicit Arguments.

(** ** Data *)

Definition chunk : Type := list byte.

Definition chunk_length (c : chunk) : Z := Z.of_nat (length c).

(** What a caller may pass as [chunk] to [write] and [end]: a string with the
    optional [encoding] argument, or a Buffer. *)
Inductive data : Type :=
| DString (s : string) (enc : option string)
| DBuffer (b : chunk).

Record BufferedStream : Type := mkStream {
  size : Z;
  encoding : option string;
  readable : bool;
  writable : bool;
  ended : bool;
  maxSize : Z;
  _buffer : list chunk;
  _wait : bool;
  _flushing : bool;
  _wasFull : bool
}.

(** Events given to [emit].  [EvData c None] is [emit("data", c)];
    [EvData c (Some e)] is [emit("data", c.toString(e))]. *)
Inductive event : Type :=
| EvData (c : chunk) (enc : option string)
| EvDrain
| EvPause
| EvResume
| EvEnd.

(** The two closures named [tick] that are passed to [process.nextTick]. *)
Inductive tick : Type :=
| FlushTick   (* the one of _flushOnNextTick *)
| EndTick.    (* the one of _emitEndDestroyNextTick *)

Record world : Type := mkWorld {
  stream : BufferedStream;
  ticks : list tick;
  log : list event
}.

(** ** Field updates *)

Definition set_size (v : Z) (s : BufferedStream) : BufferedStream :=
  mkStream v (encoding s) (readable s) (writable s) (ended s) (maxSize s)
           (_buffer s) (_wait s) (_flushing s) (_wasFull s).

Definition set_encoding (v : option string) (s : BufferedStream) : BufferedStream :=
  mkStream (size s) v (readable s) (writable s) (ended s) (maxSize s)
           (_buffer s) (_wait s) (_flushing s) (_wasFull s).

Definition set_readable (v : bool) (s : BufferedStream) : BufferedStream :=
  mkStream (size s) (encoding s) v (writable s) (ended s) (maxSize s)
           (_buffer s) (_wait s) (_flushing s) (_wasFull s).

Definition set_writable (v : bool) (s : BufferedStream) : BufferedStream :=
  mkStream (size s) (encoding s) (readable s) v (ended s) (maxSize s)
           (_buffer s) (_wait s) (_flushing s) (_wasFull s).

Definition set_ended (v : bool) (s : BufferedStream) : BufferedStream :=
  mkStream (size s) (encoding s) (readable s) (writable s) v (maxSize s)
           (_buffer s) (_wait s) (_flushing s) (_wasFull s).

Definition set__buffer (v : list chunk) (s : BufferedStream) : BufferedStream :=
  mkStream (size s) (encoding s) (readable s) (writable s) (ended s) (maxSize s)
           v (_wait s) (_flushing s) (_wasFull s).

Definition set__wait (v : bool) (s : BufferedStream) : BufferedStream :=
  mkStream (size s) (encoding s) (readable s) (writable s) (ended s) (maxSize s)
           (_buffer s) v (_flushing s) (_wasFull s).

Definition set__flushing (v : bool) (s : BufferedStream) : BufferedStream :=
  mkStream (size s) (encoding s) (readable s) (writable s) (ended s) (maxSize s)
           (_buffer s) (_wait s) v (_wasFull s).

Definition set__wasFull (v : bool) (s : BufferedStream) : BufferedStream :=
  mkStream (size s) (encoding s) (readable s) (writable s) (ended s) (maxSize s)
           (_buffer s) (_wait s) (_flushing s) v.

(** ** The getters *)

(** [this._buffer.length == 0] *)
Definition empty (s : BufferedStream) : bool :=
  Nat.eqb (length (_buffer s)) 0.

(** [this.maxSize >= 0 && this.maxSize < this.size] *)
Definition full (s : BufferedStream) : bool :=
  (0 <=? maxSize s) && (maxSize s <? size s).

(** ** The monad: state of the world, and exceptions that keep the state
    reached when they were thrown *)

Inductive outcome (A : Type) : Type :=
| Normal (a : A) (w : world)
| Thrown (msg : string) (w : world).

Arguments Thrown {A} msg w.

Definition M (A : Type) : Type := world -> outcome A.

Definition ret {A : Type} (a : A) : M A := fun w => Normal a w.

Definition bind {A B : Type} (m : M A) (k : A -> M B) : M B :=
  fun w => match m w with
           | Normal a w' => k a w'
           | Thrown msg w' => Thrown msg w'
           end.

Definition throw {A : Type} (msg : string) : M A := fun w => Thrown msg w.

Declare Scope js_scope.
Delimit Scope js_scope with js.
Notation "x <- m ;; k" := (bind m (fun x => k))
  (at level 61, m at next level, right associativity) : js_scope.
Notation "m ;; k" := (bind m (fun _ => k))
  (at level 61, right associativity) : js_scope.
Local Open Scope js_scope.

(** [this] *)
Definition this : M BufferedStream := fun w => Normal (stream w) w.

(** an assignment to a field of [this] *)
Definition assign (f : BufferedStream -> BufferedStream) : M unit :=
  fun w => Normal tt (mkWorld (f (stream w)) (ticks w) (log w)).

(** [this.emit(...)] *)
Definition emit (e : event) : M unit :=
  fun w => Normal tt (mkWorld (stream w) (ticks w) (log w ++ [e])).

(** [process.nextTick(tick)] *)
Definition nextTick (t : tick) : M unit :=
  fun w => Normal tt (mkWorld (stream w) (ticks w ++ [t]) (log w)).

(** the world an operation leaves behind, however it ended *)
Definition after {A : Type} (o : outcome A) : world :=
  match o with
  | Normal _ w => w
  | Thrown _ w => w
  end.

Definition throws {A : Type} (o : outcome A) : bool :=
  match o with
  | Normal _ _ => false
  | Thrown _ _ => true
  end.


(** [if (this.encoding)]: null and the empty string are falsy *)
Definition truthy_encoding (e : option string) : option string :=
  match e with
  | Some EmptyString => None
  | Some s => Some s
  | None => None
  end.

Section Methods.

(** [new Buffer(chunk, encoding)] for a string [chunk] *)
Variable newBuffer : string -> option string -> chunk.

(** The "data" listeners: given the events emitted so far, the last of
    which is the chunk just handed to them, do they call [pause()]? *)
Variable pauses : list event -> bool.

(** [if (typeof chunk == "string") chunk = new Buffer(chunk, encoding)] *)
Definition toChunk (d : data) : chunk :=
  match d with
  | DString s enc => newBuffer s enc
  | DBuffer b => b
  end.

Definition setEncoding (enc : option string) : M unit :=
  assign (set_encoding enc).

Definition pause : M unit :=
  assign (set__wait true) ;;
  emit EvPause.

Definition _flushOnNextTick : M unit := nextTick FlushTick.

Definition _emitEndDestroyNextTick : M unit := nextTick EndTick.

Definition resume : M unit :=
  assign (set__wait false) ;;
  emit EvResume ;;
  s <- this ;;
  (if negb (empty s) then _flushOnNextTick else ret tt) ;;
  s <- this ;;
  (if ended s then _emitEndDestroyNextTick else ret tt).

Definition write (d : data) : M bool :=
  s <- this ;;
  if negb (writable s) || ended s then throw "Stream is not writable"
  else
    let chunk := toChunk d in
    assign (fun s => set__buffer (_buffer s ++ [chunk]) s) ;;
    assign (fun s => set_size (size s + chunk_length chunk) s) ;;
    s <- this ;;
    (if negb (_flushing s)
     then _flushOnNextTick ;; assign (set__flushing true)
     else ret tt) ;;
    s <- this ;;
    if full s
    then assign (set__wasFull true) ;; ret false
    else ret true.

(** what the "data" listeners do to the stream when they are called *)
Definition data_listeners : M unit :=
  fun w => if pauses (log w) then pause w else ret tt w.

(** The [while] loop of [flush].  Every turn shifts one chunk off the
    buffer, so [fuel] turns are enough when [fuel] is the buffer's length
    ([flush_while_done] below). *)
Fixpoint flush_while (fuel : nat) : M unit :=
  match fuel with
  | O => ret tt
  | S fuel' =>
      s <- this ;;
      match _buffer s with
      | chunk :: rest =>
          if negb (_wait s) && readable s
          then
            assign (set__buffer rest) ;;
            assign (fun s => set_size (size s - chunk_length chunk) s) ;;
            s <- this ;;
            emit (EvData chunk (truthy_encoding (encoding s))) ;;
            data_listeners ;;
            flush_while fuel'
          else ret tt
      | [] => ret tt
      end
  end.

Definition flush : M unit :=
  s <- this ;;
  flush_while (length (_buffer s)) ;;
  s <- this ;;
  if _wasFull s && negb (full s)
  then assign (set__wasFull false) ;; emit EvDrain
  else ret tt.

Definition destroy : M unit :=
  assign (set__buffer []) ;;
  assign (set_readable false) ;;
  assign (set_writable false).

(** [end(chunk, encoding)]; [arg] is [None] when it is called without
    arguments *)
Definition end_ (arg : option data) : M unit :=
  s <- this ;;
  if ended s then throw "Stream is already ended"
  else
    match arg with
    | Some d => write d ;; ret tt
    | None => ret tt
    end ;;
    assign (set_ended true) ;;
    _emitEndDestroyNextTick.

(** the body of the closure of [_flushOnNextTick] *)
Definition flush_tick : M unit :=
  flush ;;
  s <- this ;;
  if empty s then assign (set__flushing false)
  else if _wait s then ret tt
  else nextTick FlushTick.

(** the body of the closure of [_emitEndDestroyNextTick] *)
Definition end_tick : M unit :=
  s <- this ;;
  if empty s then destroy ;; emit EvEnd
  else if _wait s then ret tt
  else nextTick EndTick.

Definition run_tick (t : tick) : M unit :=
  match t with
  | FlushTick => flush_tick
  | EndTick => end_tick
  end.

(** ** The constructor *)

Definition fresh (m : Z) : world :=
  mkWorld (mkStream 0 None true true false m [] false false false) [] [].

(** [new BufferedStream(maxSize, source, sourceEncoding)] with [maxSize] a
    number or left out and [source] a string, a Buffer or left out.  (A
    [source] that is a Stream is piped in by the stream library.) *)
Definition BufferedStream_new (maxSize : option Z) (source : option data) : world :=
  let m := match maxSize with Some m => m | None => -1 end in
  match source with
  | Some d => after (end_ (Some d) (fresh m))
  | None => fresh m
  end.

(** ** The event loop *)

Inductive call : Type :=
| CWrite (d : data)
| CEnd (arg : option data)
| CPause
| CResume
| CFlush
| CDestroy
| CSetEncoding (enc : option string).

Inductive action : Type :=
| Call (c : call)   (* the environment calls a method *)
| Tick.             (* the oldest callback of the tick queue runs *)

Definition do_call (c : call) : M unit :=
  match c with
  | CWrite d => write d ;; ret tt
  | CEnd arg => end_ arg
  | CPause => pause
  | CResume => resume
  | CFlush => flush
  | CDestroy => destroy
  | CSetEncoding enc => setEncoding enc
  end.

Definition step (a : action) (w : world) : world :=
  match a with
  | Call c => after (do_call c w)
  | Tick =>
      match ticks w with
      | [] => w
      | t :: rest => after (run_tick t (mkWorld (stream w) rest (log w)))
      end
  end.

Definition run (acts : list action) (w : world) : world :=
  fold_left (fun w a => step a w) acts w.

Definition run_ticks (n : nat) (w : world) : world :=
  run (repeat Tick n) w.

End Methods.

(** A [new Buffer(chunk, encoding)] for strings of one-byte characters: the
    bytes of the string, whatever the encoding.  The examples use it. *)
Definition latin1Buffer (s : string) (enc : option string) : chunk :=
  list_byte_of_string s.

(** "data" listeners that never pause the stream, and ones that pause it at
    every chunk *)
Definition never_pauses (l : list event) : bool := false.

Definition always_pauses (l : list event) : bool := true.

(** ** Observations on a world *)

Definition sum_lengths (b : list chunk) : Z :=
  fold_right (fun c acc => chunk_length c + acc) 0 b.

Definition is_drain (e : event) : bool :=
  match e with EvDrain => true | _ => false end.

Definition is_pause (e : event) : bool :=
  match e with EvPause => true | _ => false end.

Definition is_end (e : event) : bool :=
  match e with EvEnd => true | _ => false end.

Definition count_drain (l : list event) : nat := List.length (filter is_drain l).

Definition count_end (l : list event) : nat := List.length (filter is_end l).

Definition is_endtick (t : tick) : bool :=
  match t with EndTick => true | FlushTick => false end.

Definition count_endticks (q : list tick) : nat := List.length (filter is_endtick q).

(** the chunks handed to the "data" listeners, oldest first *)
Fixpoint data_chunks (l : list event) : list chunk :=
  match l with
  | [] => []
  | EvData c _ :: l' => c :: data_chunks l'
  | _ :: l' => data_chunks l'
  end.

Definition data_events (enc : option string) (b : list chunk) : list event :=
  map (fun c => EvData c enc) b.

(** ** Invariants *)

(** [_wasFull] is the stored copy of [full] *)
Definition full_recorded (s : BufferedStream) : Prop := _wasFull s = full s.

(** What holds of a stream whose buffer is only ever cleared by the
    finalization callback; [written] is what has been enqueued so far. *)
Record tidy (written : list chunk) (w : world) : Prop := mkTidy {
  tidy_size : size (stream w) = sum_lengths (_buffer (stream w));
  tidy_fifo : data_chunks (log w) ++ _buffer (stream w) = written;
  tidy_closed : readable (stream w) = false ->
                writable (stream w) = false /\ _buffer (stream w) = [];
  tidy_end : In EvEnd (log w) -> readable (stream w) = false
}.

(** What the events [evs] of one run of the loop of [flush] say about the
    buffer [buf] it ran on: the chunks emitted are a prefix of it, none of
    the events is "drain" or "end", and the loop stops short of the end of the
    buffer only when a listener paused the stream. *)
Record drained (buf : list chunk) (evs : list event) : Prop := mkDrained {
  drained_split : data_chunks evs ++ skipn (List.length (data_chunks evs)) buf = buf;
  drained_sum : sum_lengths buf
                = sum_lengths (data_chunks evs)
                  + sum_lengths (skipn (List.length (data_chunks evs)) buf);
  drained_no_drain : count_drain evs = 0%nat;
  drained_no_end : count_end evs = 0%nat;
  drained_not_end : ~ In EvEnd evs;
  drained_exit : existsb is_pause evs = false ->
                 skipn (List.length (data_chunks evs)) buf = []
}.

(** What the run of the pending callbacks leaves when the buffer is empty:
    every callback runs once, none is scheduled again, and each
    finalization callback emits "end". *)
Record settled (w w' : world) : Prop := mkSettled {
  settled_ticks : ticks w' = [];
  settled_buffer : _buffer (stream w') = [];
  settled_ends : count_end (log w') = (count_end (log w) + count_endticks (ticks w))%nat;
  settled_data : data_chunks (log w') = data_chunks (log w);
  settled_closed : In EndTick (ticks w) ->
                   readable (stream w') = false /\ writable (stream w') = false;
  settled_readable : readable (stream w) = false -> readable (stream w') = false;
  settled_writable : writable (stream w) = false -> writable (stream w') = false;
  settled_ended : ended (stream w') = ended (stream w)
}.

(** a finalization callback is pending only after [end] was called *)
Definition end_scheduled (w : world) : Prop :=
  In EndTick (ticks w) -> ended (stream w) = true.

(** "end" is in the log only of a stream that is no longer readable *)
Definition end_closed (w : world) : Prop :=
  In EvEnd (log w) -> readable (stream w) = false.

(** The chain of [_flushOnNextTick]: while chunks are queued [_flushing] is
    set, and while [_flushing] is set a flush callback is pending, unless the
    chain stopped on a paused stream with chunks left. *)
Definition armed (w : world) : Prop :=
  (empty (stream w) = false -> _flushing (stream w) = true) /\
  (_flushing (stream w) = true ->
   In FlushTick (ticks w) \/
   (_wait (stream w) = true /\ empty (stream w) = false)).

Definition direct_destroy (a : action) : bool :=
  match a with
  | Call CDestroy => true
  | _ => false
  end.

(** every [destroy] of the run is the one of the finalization callback *)
Definition no_direct_destroy (acts : list action) : Prop :=
  Forall (fun a => direct_destroy a = false) acts.

Section Traces.

Variable newBuffer : string -> option string -> chunk.
Variable pauses : list event -> bool.

(** the chunk that a call enqueues, when the call does not throw *)
Definition accepted_by (a : action) (w : world) : list chunk :=
  match a with
  | Call (CWrite d) =>
      if throws (write newBuffer d w) then [] else [toChunk newBuffer d]
  | Call (CEnd (Some d)) =>
      if throws (end_ newBuffer (Some d) w) then [] else [toChunk newBuffer d]
  | _ => []
  end.

(** the chunks w1..wn of the successful writes of a run, in call order *)
Fixpoint accepted (acts : list action) (w : world) : list chunk :=
  match acts with
  | [] => []
  | a :: rest => accepted_by a w ++ accepted rest (step newBuffer pauses a w)
  end.

(** The events of one run of the loop of [flush] on a stream that is
    readable and not paused, when its log is [lg] and its buffer [buf]: the
    chunks up to the first at which the listeners pause
    ([flush_while_eq] below). *)
Fixpoint drain_events (enc : option string) (lg : list event) (buf : list chunk)
  : list event :=
  match buf with
  | [] => []
  | c :: rest =>
      if pauses (lg ++ [EvData c enc])
      then [EvData c enc; EvPause]
      else EvData c enc :: drain_events enc (lg ++ [EvData c enc]) rest
  end.

(** the chunk that the constructor writes *)
Definition source_chunks (source : option data) : list chunk :=
  match source with
  | Some d => [toChunk newBuffer d]
  | None => []
  end.

End Traces.

(** ** Proof steps shared by the lemmas below *)

Ltac unfold_setters :=
  unfold set_size, set_encoding, set_readable, set_writable, set_ended,
    set__buffer, set__wait, set__flushing, set__wasFull in *;
  cbn [size encoding readable writable ended maxSize _buffer _wait _flushing
       _wasFull stream ticks log] in *.

Ltac unfold_monad :=
  unfold bind, ret, throw, this, assign, emit, nextTick, after, throws in *;
  cbn [stream ticks log after] in *.

Ltac js_simpl := repeat (progress (unfold_monad; unfold_setters)).

(** case analysis on the tests that a closed form branches on *)
Ltac break_if :=
  match goal with
  | |- context [if ?b then _ else _] =>
      lazymatch b with
      | context [if _ then _ else _] => fail
      | _ => destruct b eqn:?
      end
  | |- context [match ?x with Some _ => _ | None => _ end] => destruct x eqn:?
  end.

Ltac break_ifs :=
  repeat (break_if; cbn zeta; js_simpl; unfold empty in *; js_simpl).

Section Properties.

Variable newBuffer : string -> option string -> chunk.
Variable pauses : list event -> bool.

Lemma chunk_length_nonneg (c : chunk) : 0 <= chunk_length c.
Proof. unfold chunk_length; lia. Qed.

Lemma sum_lengths_nonneg (b : list chunk) : 0 <= sum_lengths b.
Proof.
  induction b as [|c b IH]; simpl; [lia|].
  pose proof (chunk_length_nonneg c); lia.
Qed.

Lemma sum_lengths_app (b1 b2 : list chunk) :
  sum_lengths (b1 ++ b2) = sum_lengths b1 + sum_lengths b2.
Proof. induction b1 as [|c b1 IH]; simpl; lia. Qed.

Lemma sum_lengths_cons (c : chunk) (b : list chunk) :
  sum_lengths (c :: b) = chunk_length c + sum_lengths b.
Proof. reflexivity. Qed.

(** *** The loop of [flush] in closed form *)

Lemma flush_while_eq (n : nat) :
  forall sz enc rd wr en mx buf wt fl wf tk lg,
    (List.length buf <= n)%nat ->
    flush_while pauses n (mkWorld (mkStream sz enc rd wr en mx buf wt fl wf) tk lg)
    = Normal tt
        (if negb wt && rd
         then mkWorld
                (mkStream
                   (sz - sum_lengths
                           (data_chunks (drain_events pauses (truthy_encoding enc) lg buf)))
                   enc rd wr en mx
                   (skipn (List.length
                             (data_chunks (drain_events pauses (truthy_encoding enc) lg buf)))
                          buf)
                   (existsb is_pause (drain_events pauses (truthy_encoding enc) lg buf))
                   fl wf)
                tk (lg ++ drain_events pauses (truthy_encoding enc) lg buf)
         else mkWorld (mkStream sz enc rd wr en mx buf wt fl wf) tk lg).
Proof.
  induction n as [|n IH]; intros sz enc rd wr en mx buf wt fl wf tk lg Hlen.
  - destruct buf as [|c rest]; [|simpl in Hlen; lia].
    cbn. destruct wt, rd; cbn; rewrite ?Z.sub_0_r, ?app_nil_r; reflexivity.
  - destruct buf as [|c rest].
    + cbn. unfold bind, this; cbn.
      destruct wt, rd; cbn; rewrite ?Z.sub_0_r, ?app_nil_r; reflexivity.
    + simpl in Hlen.
      cbn [flush_while]. unfold bind at 1. unfold this at 1.
      cbn [stream _buffer _wait readable].
      destruct (negb wt && rd) eqn:Hc; [|reflexivity].
      assert (Hwt : wt = false) by (destruct wt; [discriminate|reflexivity]).
      subst wt.
      unfold data_listeners, pause. js_simpl. cbn [drain_events].
      destruct (pauses (lg ++ [EvData c (truthy_encoding enc)])) eqn:Hp.
      * rewrite IH by lia. cbn [negb andb].
        cbn [data_chunks List.length skipn sum_lengths fold_right existsb is_pause orb].
        rewrite <- app_assoc, Z.add_0_r. reflexivity.
      * rewrite IH by lia. rewrite Hc.
        cbn [data_chunks List.length skipn existsb is_pause orb].
        rewrite <- app_assoc. cbn [app].
        rewrite sum_lengths_cons, Z.sub_add_distr. reflexivity.
Qed.

(** What the loop's events say about the buffer it ran on. *)
Lemma drain_events_drained (enc : option string) (buf : list chunk) :
  forall lg, drained buf (drain_events pauses enc lg buf).
Proof.
  induction buf as [|c rest IH]; intros lg.
  - constructor; cbn; auto.
  - cbn [drain_events].
    destruct (pauses (lg ++ [EvData c enc])).
    + constructor; cbn; try reflexivity; try discriminate; try lia.
      intros [H|[H|[]]]; discriminate.
    + destruct (IH (lg ++ [EvData c enc])) as [I1 I2 I3 I4 I5 I6].
      constructor; cbn [data_chunks List.length skipn app sum_lengths fold_right
                        existsb is_pause orb].
      * f_equal. exact I1.
      * unfold sum_lengths in I2. lia.
      * exact I3.
      * exact I4.
      * intros [H|H]; [discriminate|exact (I5 H)].
      * exact I6.
Qed.

(** Listeners that do not pause let the loop run through the buffer. *)
Lemma drain_events_undisturbed (enc : option string) (buf : list chunk) :
  forall lg,
    (forall evs, pauses (lg ++ evs) = false) ->
    drain_events pauses enc lg buf = data_events enc buf.
Proof.
  induction buf as [|c rest IH]; intros lg Hq; [reflexivity|].
  cbn [drain_events data_events map]. rewrite Hq. f_equal.
  apply IH. intros evs. rewrite <- app_assoc. apply Hq.
Qed.

(** The loop leaves only when its condition is false: the fuel given by
    [flush] never runs out first. *)
Lemma flush_while_done (w : world) :
  let s' := stream (after (flush_while pauses (List.length (_buffer (stream w))) w)) in
  negb (_wait s') && readable s' && negb (empty s') = false.
Proof.
  destruct w as [[sz enc rd wr en mx buf wt fl wf] tk lg]; cbn [stream _buffer].
  rewrite flush_while_eq by lia.
  destruct (negb wt && rd) eqn:Hc; cbn [after stream _wait readable];
    [|rewrite Hc; reflexivity].
  destruct (drain_events_drained (truthy_encoding enc) buf lg) as [_ _ _ _ _ Hexit].
  unfold empty. cbn [_buffer].
  destruct (existsb is_pause (drain_events pauses (truthy_encoding enc) lg buf));
    [reflexivity|].
  rewrite Hexit by reflexivity. cbn. apply andb_false_r.
Qed.

(** *** [flush] in closed form *)

Lemma flush_eq :
  forall sz enc rd wr en mx buf wt fl wf tk lg,
    flush pauses (mkWorld (mkStream sz enc rd wr en mx buf wt fl wf) tk lg)
    = Normal tt
        (if negb wt && rd
         then
           if wf && negb ((0 <=? mx)
                          && (mx <? sz - sum_lengths
                                (data_chunks
                                   (drain_events pauses (truthy_encoding enc) lg buf))))
           then mkWorld
                  (mkStream
                     (sz - sum_lengths
                             (data_chunks (drain_events pauses (truthy_encoding enc) lg buf)))
                     enc rd wr en mx
                     (skipn (List.length
                               (data_chunks (drain_events pauses (truthy_encoding enc) lg buf)))
                            buf)
                     (existsb is_pause (drain_events pauses (truthy_encoding enc) lg buf))
                     fl false)
                  tk ((lg ++ drain_events pauses (truthy_encoding enc) lg buf) ++ [EvDrain])
           else mkWorld
                  (mkStream
                     (sz - sum_lengths
                             (data_chunks (drain_events pauses (truthy_encoding enc) lg buf)))
                     enc rd wr en mx
                     (skipn (List.length
                               (data_chunks (drain_events pauses (truthy_encoding enc) lg buf)))
                            buf)
                     (existsb is_pause (drain_events pauses (truthy_encoding enc) lg buf))
                     fl wf)
                  tk (lg ++ drain_events pauses (truthy_encoding enc) lg buf)
         else
           if wf && negb ((0 <=? mx) && (mx <? sz))
           then mkWorld (mkStream sz enc rd wr en mx buf wt fl false) tk (lg ++ [EvDrain])
           else mkWorld (mkStream sz enc rd wr en mx buf wt fl wf) tk lg).
Proof.
  intros. unfold flush.
  unfold bind at 1. unfold this at 1. cbn [stream _buffer].
  unfold bind at 1. rewrite flush_while_eq by lia.
  destruct (negb wt && rd); js_simpl; unfold full; js_simpl.
  - match goal with |- context [if ?b then _ else _] => destruct b end; reflexivity.
  - destruct (wf && negb ((0 <=? mx) && (mx <? sz))); reflexivity.
Qed.

(** *** The methods in closed form *)

Lemma write_eq (d : data) :
  forall sz enc rd wr en mx buf wt fl wf tk lg,
    write newBuffer d (mkWorld (mkStream sz enc rd wr en mx buf wt fl wf) tk lg)
    = if negb wr || en
      then Thrown "Stream is not writable"
             (mkWorld (mkStream sz enc rd wr en mx buf wt fl wf) tk lg)
      else
        let c := toChunk newBuffer d in
        let f := (0 <=? mx) && (mx <? sz + chunk_length c) in
        Normal (negb f)
          (mkWorld (mkStream (sz + chunk_length c) enc rd wr en mx (buf ++ [c])
                             wt true (if f then true else wf))
                   (if fl then tk else tk ++ [FlushTick]) lg).
Proof.
  intros. unfold write, _flushOnNextTick. js_simpl.
  destruct (negb wr || en); [reflexivity|].
  cbn zeta. unfold full. js_simpl.
  destruct fl; cbn [negb]; js_simpl;
    destruct ((0 <=? mx) && (mx <? sz + chunk_length (toChunk newBuffer d)));
    js_simpl; reflexivity.
Qed.

Lemma end_eq (arg : option data) :
  forall sz enc rd wr en mx buf wt fl wf tk lg,
    end_ newBuffer arg (mkWorld (mkStream sz enc rd wr en mx buf wt fl wf) tk lg)
    = if en
      then Thrown "Stream is already ended"
             (mkWorld (mkStream sz enc rd wr en mx buf wt fl wf) tk lg)
      else
        match arg with
        | None =>
            Normal tt (mkWorld (mkStream sz enc rd wr true mx buf wt fl wf)
                               (tk ++ [EndTick]) lg)
        | Some d =>
            if negb wr
            then Thrown "Stream is not writable"
                   (mkWorld (mkStream sz enc rd wr en mx buf wt fl wf) tk lg)
            else
              let c := toChunk newBuffer d in
              let f := (0 <=? mx) && (mx <? sz + chunk_length c) in
              Normal tt
                (mkWorld (mkStream (sz + chunk_length c) enc rd wr true mx (buf ++ [c])
                                   wt true (if f then true else wf))
                         ((if fl then tk else tk ++ [FlushTick]) ++ [EndTick]) lg)
        end.
Proof.
  intros. unfold end_, _emitEndDestroyNextTick.
  unfold bind at 1. unfold this at 1. cbn [stream ended].
  destruct en; [reflexivity|].
  destruct arg as [d|].
  - unfold bind at 1. unfold bind at 1. rewrite write_eq.
    rewrite orb_false_r.
    destruct (negb wr); [reflexivity|].
    cbn zeta. js_simpl. reflexivity.
  - js_simpl. reflexivity.
Qed.

Lemma pause_eq :
  forall sz enc rd wr en mx buf wt fl wf tk lg,
    pause (mkWorld (mkStream sz enc rd wr en mx buf wt fl wf) tk lg)
    = Normal tt (mkWorld (mkStream sz enc rd wr en mx buf true fl wf) tk
                         (lg ++ [EvPause])).
Proof. intros. unfold pause. js_simpl. reflexivity. Qed.

Lemma resume_eq :
  forall sz enc rd wr en mx buf wt fl wf tk lg,
    resume (mkWorld (mkStream sz enc rd wr en mx buf wt fl wf) tk lg)
    = Normal tt
        (mkWorld (mkStream sz enc rd wr en mx buf false fl wf)
                 ((if Nat.eqb (List.length buf) 0 then tk else tk ++ [FlushTick])
                    ++ (if en then [EndTick] else []))
                 (lg ++ [EvResume])).
Proof.
  intros. unfold resume, _flushOnNextTick, _emitEndDestroyNextTick, empty.
  js_simpl.
  destruct (Nat.eqb (List.length buf) 0); destruct en; js_simpl;
    rewrite ?app_nil_r; reflexivity.
Qed.

Lemma destroy_eq :
  forall sz enc rd wr en mx buf wt fl wf tk lg,
    destroy (mkWorld (mkStream sz enc rd wr en mx buf wt fl wf) tk lg)
    = Normal tt (mkWorld (mkStream sz enc false false en mx [] wt fl wf) tk lg).
Proof. intros. unfold destroy. js_simpl. reflexivity. Qed.

Lemma setEncoding_eq (e : option string) :
  forall sz enc rd wr en mx buf wt fl wf tk lg,
    setEncoding e (mkWorld (mkStream sz enc rd wr en mx buf wt fl wf) tk lg)
    = Normal tt (mkWorld (mkStream sz e rd wr en mx buf wt fl wf) tk lg).
Proof. intros. unfold setEncoding. js_simpl. reflexivity. Qed.

Lemma end_tick_eq :
  forall sz enc rd wr en mx buf wt fl wf tk lg,
    end_tick (mkWorld (mkStream sz enc rd wr en mx buf wt fl wf) tk lg)
    = Normal tt
        (if Nat.eqb (List.length buf) 0
         then mkWorld (mkStream sz enc false false en mx [] wt fl wf) tk (lg ++ [EvEnd])
         else if wt
              then mkWorld (mkStream sz enc rd wr en mx buf wt fl wf) tk lg
              else mkWorld (mkStream sz enc rd wr en mx buf wt fl wf)
                           (tk ++ [EndTick]) lg).
Proof.
  intros. unfold end_tick, empty.
  unfold bind at 1. unfold this at 1. cbn [stream _buffer _wait].
  destruct (Nat.eqb (List.length buf) 0).
  - unfold bind at 1. rewrite destroy_eq. js_simpl. reflexivity.
  - destruct wt; js_simpl; reflexivity.
Qed.

Lemma flush_normal (w : world) :
  flush pauses w = Normal tt (after (flush pauses w)).
Proof.
  destruct w as [[sz enc rd wr en mx buf wt fl wf] tk lg].
  rewrite flush_eq. reflexivity.
Qed.

Lemma flush_tick_eq (w : world) :
  flush_tick pauses w
  = Normal tt
      (let w1 := after (flush pauses w) in
       if empty (stream w1)
       then mkWorld (set__flushing false (stream w1)) (ticks w1) (log w1)
       else if _wait (stream w1) then w1
            else mkWorld (stream w1) (ticks w1 ++ [FlushTick]) (log w1)).
Proof.
  unfold flush_tick. unfold bind at 1. rewrite flush_normal. cbv zeta.
  destruct (after (flush pauses w)) as [s1 tk1 lg1].
  js_simpl. destruct (empty s1); [reflexivity|].
  destruct (_wait s1); reflexivity.
Qed.

Lemma after_bind_ret (A : Type) (m : M A) (w : world) :
  after ((m ;; ret tt) w) = after (m w).
Proof. unfold bind, ret. destruct (m w); reflexivity. Qed.

Ltac step_eq :=
  unfold step, do_call, run_tick; cbn [ticks stream log];
  rewrite ?after_bind_ret;
  rewrite ?write_eq, ?end_eq, ?pause_eq, ?resume_eq, ?destroy_eq,
    ?setEncoding_eq, ?end_tick_eq, ?flush_tick_eq, ?flush_eq.

(** names the events of the loop of [flush] and recalls what is known of
    them *)
Ltac drain_facts :=
  repeat match goal with
         | |- context [drain_events pauses ?e ?l ?b] =>
             let evs := fresh "evs" in
             pose proof (drain_events_drained e b l) as [? ? ? ? ? ?];
             pose proof (sum_lengths_nonneg (data_chunks (drain_events pauses e l b)));
             pose proof (sum_lengths_nonneg
                           (skipn (List.length (data_chunks (drain_events pauses e l b))) b));
             set (evs := drain_events pauses e l b) in *; clearbody evs
         end.

(** *** The backpressure flag *)

Lemma count_drain_app (l1 l2 : list event) :
  count_drain (l1 ++ l2) = (count_drain l1 + count_drain l2)%nat.
Proof. unfold count_drain. rewrite filter_app, length_app. reflexivity. Qed.


Lemma step_drain_edge (a : action) (w : world) :
  full_recorded (stream w) ->
  full_recorded (stream (step newBuffer pauses a w)) /\
  count_drain (log (step newBuffer pauses a w)) =
    (count_drain (log w) +
     if full (stream w) && negb (full (stream (step newBuffer pauses a w)))
     then 1 else 0)%nat.
Proof.
  destruct w as [[sz enc rd wr en mx buf wt fl wf] tk lg].
  unfold full_recorded; cbn [stream _wasFull log].
  intros Hrec.
  destruct a as [[d|arg| | | | |e]|]; [ | | | | | | |destruct tk as [|[|] tk']];
    step_eq; unfold full, empty in *; js_simpl;
    drain_facts; break_ifs;
    try match goal with
        | d : data |- _ => pose proof (chunk_length_nonneg (toChunk newBuffer d))
        end;
    rewrite ?count_drain_app;
    repeat match goal with H : count_drain _ = 0%nat |- _ => rewrite H end;
    cbn [count_drain filter is_drain List.length];
    split; lia.
Qed.

(** *** Runs *)

Lemma run_cons (a : action) (acts : list action) (w : world) :
  run newBuffer pauses (a :: acts) w = run newBuffer pauses acts (step newBuffer pauses a w).
Proof. reflexivity. Qed.

Lemma run_app (l1 l2 : list action) (w : world) :
  run newBuffer pauses (l1 ++ l2) w = run newBuffer pauses l2 (run newBuffer pauses l1 w).
Proof. unfold run. apply fold_left_app. Qed.

Lemma run_invariant (P : world -> Prop) :
  (forall a w, P w -> P (step newBuffer pauses a w)) ->
  forall acts w, P w -> P (run newBuffer pauses acts w).
Proof.
  intros Hstep acts. induction acts as [|a acts IH]; intros w Hw; [exact Hw|].
  rewrite run_cons. apply IH, Hstep, Hw.
Qed.

Lemma new_full_recorded (m : option Z) (src : option data) :
  full_recorded (stream (BufferedStream_new newBuffer m src)).
Proof.
  unfold BufferedStream_new, fresh, full_recorded.
  destruct src as [d|]; [rewrite end_eq|]; unfold full; cbn zeta; js_simpl.
  - pose proof (chunk_length_nonneg (toChunk newBuffer d)).
    break_ifs; lia.
  - lia.
Qed.

Lemma reachable_full_recorded (m : option Z) (src : option data) (acts : list action) :
  full_recorded (stream (run newBuffer pauses acts (BufferedStream_new newBuffer m src))).
Proof.
  apply run_invariant with (P := fun w => full_recorded (stream w)).
  - intros a w Hw. apply (step_drain_edge a w Hw).
  - apply new_full_recorded.
Qed.

Lemma step_log_extends (a : action) (w : world) :
  exists evs, log (step newBuffer pauses a w) = log w ++ evs.
Proof.
  destruct w as [[sz enc rd wr en mx buf wt fl wf] tk lg].
  destruct a as [[d|arg| | | | |e]|]; [ | | | | | | |destruct tk as [|[|] tk']];
    step_eq; unfold empty; js_simpl; break_ifs; rewrite <- ?app_assoc;
    first [ eexists; reflexivity | exists []; rewrite app_nil_r; reflexivity ].
Qed.

(** *** Accounting and order *)

Lemma data_chunks_app (l1 l2 : list event) :
  data_chunks (l1 ++ l2) = data_chunks l1 ++ data_chunks l2.
Proof.
  induction l1 as [|e l1 IH]; [reflexivity|].
  destruct e; cbn; rewrite ?IH; reflexivity.
Qed.

Lemma data_chunks_data (enc : option string) (b : list chunk) :
  data_chunks (data_events enc b) = b.
Proof. induction b as [|c b IH]; cbn; [|f_equal; exact IH]; reflexivity. Qed.


Lemma length_zero_nil (A : Type) (l : list A) :
  Nat.eqb (List.length l) 0 = true -> l = [].
Proof. destruct l; [reflexivity|discriminate]. Qed.

Lemma write_throws (d : data) (w : world) :
  throws (write newBuffer d w) = negb (writable (stream w)) || ended (stream w).
Proof.
  destruct w as [[sz enc rd wr en mx buf wt fl wf] tk lg].
  rewrite write_eq. cbn [stream writable ended].
  destruct (negb wr || en); reflexivity.
Qed.

Lemma end_throws (arg : option data) (w : world) :
  throws (end_ newBuffer arg w)
  = ended (stream w)
    || match arg with
       | Some _ => negb (writable (stream w))
       | None => false
       end.
Proof.
  destruct w as [[sz enc rd wr en mx buf wt fl wf] tk lg].
  rewrite end_eq. cbn [stream writable ended].
  destruct en, arg as [d|], wr; reflexivity.
Qed.

Lemma step_tidy (written : list chunk) (a : action) (w : world) :
  direct_destroy a = false ->
  tidy written w ->
  tidy (written ++ accepted_by newBuffer a w) (step newBuffer pauses a w).
Proof.
  destruct w as [[sz enc rd wr en mx buf wt fl wf] tk lg].
  intros Ha [Hsize Hfifo Hclosed Hend]. cbn [stream log size _buffer readable writable] in *.
  subst written.
  destruct a as [[d|[d|]| | | | |e]|]; [ | | | | | | | |destruct tk as [|[|] tk']];
    try discriminate Ha;
    unfold accepted_by; rewrite ?write_throws, ?end_throws;
    step_eq; unfold empty; cbn zeta; js_simpl; drain_facts; break_ifs;
    repeat match goal with
           | H : Nat.eqb (List.length _) 0 = true |- _ => apply length_zero_nil in H
           end;
    try (exfalso; lia);
    (constructor; cbn [stream log size _buffer readable writable];
     [ repeat match goal with
              | H : ?b = [] |- _ => is_var b; subst b
              end;
       rewrite ?sum_lengths_app; cbn [sum_lengths fold_right] in *; lia
     | rewrite ?data_chunks_app; cbn [data_chunks];
       rewrite ?app_nil_r, <- ?app_assoc;
       repeat match goal with
              | H : data_chunks ?e ++ skipn _ ?b = ?b |- _ => rewrite H
              | H : ?b = [] |- context [?b] => rewrite H
              end;
       rewrite ?app_nil_r; reflexivity
     | intros Hrd; try discriminate Hrd;
       try (split; reflexivity);
       try (destruct (Hclosed Hrd) as [? ?]; subst;
            first [ split; [lia|reflexivity] | exfalso; lia ])
     | rewrite ?in_app_iff; cbn [In]; intros Hin;
       try reflexivity;
       try (apply Hend; intuition (try discriminate); fail) ]).
Qed.

Lemma run_tidy (acts : list action) :
  forall written w,
    no_direct_destroy acts ->
    tidy written w ->
    tidy (written ++ accepted newBuffer pauses acts w) (run newBuffer pauses acts w).
Proof.
  induction acts as [|a acts IH]; intros written w Hnd Hw.
  - cbn. rewrite app_nil_r. exact Hw.
  - inversion Hnd as [|? ? Ha Hacts]; subst.
    rewrite run_cons. cbn [accepted]. rewrite app_assoc.
    apply IH; [exact Hacts|]. apply step_tidy; assumption.
Qed.

Lemma new_tidy (m : option Z) (src : option data) :
  tidy (source_chunks newBuffer src) (BufferedStream_new newBuffer m src).
Proof.
  unfold BufferedStream_new, fresh, source_chunks.
  destruct src as [d|]; [rewrite end_eq|]; cbn [negb]; cbn zeta; js_simpl;
    constructor; cbn [stream log size _buffer readable writable app data_chunks
                      sum_lengths fold_right In];
    try reflexivity; try discriminate; try tauto; lia.
Qed.

(** *** Running the tick queue *)

Lemma run_ticks_S (n : nat) (w : world) :
  run_ticks newBuffer pauses (S n) w = run_ticks newBuffer pauses n (step newBuffer pauses Tick w).
Proof. reflexivity. Qed.

Lemma run_ticks_add (n k : nat) (w : world) :
  run_ticks newBuffer pauses (n + k) w = run_ticks newBuffer pauses k (run_ticks newBuffer pauses n w).
Proof. unfold run_ticks. rewrite repeat_app. apply run_app. Qed.

Lemma run_ticks_idle (n : nat) (w : world) :
  ticks w = [] -> run_ticks newBuffer pauses n w = w.
Proof.
  intros Hq. induction n as [|n IH]; [reflexivity|].
  rewrite run_ticks_S. unfold step at 1. rewrite Hq. exact IH.
Qed.

Lemma count_end_app (l1 l2 : list event) :
  count_end (l1 ++ l2) = (count_end l1 + count_end l2)%nat.
Proof. unfold count_end. rewrite filter_app, length_app. reflexivity. Qed.

Lemma count_end_data (enc : option string) (b : list chunk) :
  count_end (data_events enc b) = 0%nat.
Proof. induction b as [|c b IH]; [reflexivity|exact IH]. Qed.

Lemma run_ticks_empty (q : list tick) :
  forall w,
    ticks w = q ->
    _buffer (stream w) = [] ->
    settled w (run_ticks newBuffer pauses (List.length q) w).
Proof.
  induction q as [|t q IH]; intros w Hq Hbuf.
  - cbn. constructor; rewrite ?Hq; cbn; try tauto; auto.
  - cbn [List.length]. rewrite run_ticks_S.
    destruct w as [[sz enc rd wr en mx buf wt fl wf] tk lg].
    cbn [stream ticks _buffer] in *. subst tk buf.
    assert (Hstep : exists w1,
               step newBuffer pauses Tick
                 (mkWorld (mkStream sz enc rd wr en mx [] wt fl wf) (t :: q) lg) = w1 /\
               ticks w1 = q /\ _buffer (stream w1) = [] /\
               count_end (log w1) = (count_end lg + if is_endtick t then 1 else 0)%nat /\
               data_chunks (log w1) = data_chunks lg /\
               (t = EndTick -> readable (stream w1) = false /\
                               writable (stream w1) = false) /\
               (rd = false -> readable (stream w1) = false) /\
               (wr = false -> writable (stream w1) = false) /\
               ended (stream w1) = en).
    { eexists; split; [reflexivity|].
      destruct t; step_eq; unfold empty; cbn zeta; js_simpl; break_ifs;
        rewrite ?count_end_app, ?data_chunks_app; cbn;
        rewrite ?app_nil_r;
        repeat split; try discriminate; try reflexivity; try lia; auto. }
    destruct Hstep as (w1 & -> & Hq1 & Hb1 & He1 & Hd1 & Hc1 & Hr1 & Hw1 & Hen1).
    specialize (IH w1 Hq1 Hb1). destruct IH as [I1 I2 I3 I4 I5 I6 I7 I8].
    constructor; cbn [stream ticks log readable writable ended]; auto.
    + rewrite I3, He1, Hq1. unfold count_endticks. cbn [filter].
      destruct t; cbn [is_endtick List.length]; lia.
    + congruence.
    + intros [Ht|Hin].
      * destruct (Hc1 Ht). split; auto.
      * apply I5. rewrite Hq1. exact Hin.
    + congruence.
Qed.

(** ** The claims *)

(** C3.  Backpressure: on a writable stream that has not ended, [write]
    does not throw whatever the fill level, enqueues the chunk, and returns
    [false] if and only if [full] holds right after the chunk was enqueued;
    [full] is [maxSize >= 0] and [size > maxSize]. *)
Theorem write_reports_full (d : data) (w : world) :
  writable (stream w) = true ->
  ended (stream w) = false ->
  exists w',
    write newBuffer d w = Normal (negb (full (stream w'))) w' /\
    _buffer (stream w') = _buffer (stream w) ++ [toChunk newBuffer d] /\
    size (stream w') = size (stream w) + chunk_length (toChunk newBuffer d) /\
    (full (stream w') = true <->
     maxSize (stream w') >= 0 /\ size (stream w') > maxSize (stream w')).
Proof.
  destruct w as [[sz enc rd wr en mx buf wt fl wf] tk lg].
  cbn [stream writable ended]. intros -> ->.
  rewrite write_eq. cbn [negb orb]. cbn zeta.
  match goal with |- exists w', Normal _ ?x = _ /\ _ => exists x end.
  split; [|split; [|split]].
  - unfold full. cbn [stream size maxSize]. reflexivity.
  - reflexivity.
  - reflexivity.
  - unfold full. cbn [stream size maxSize]. lia.
Qed.

(** C9.  [destroy] empties the buffer and clears [readable] and [writable];
    [size], [ended], [encoding], [maxSize] and the pause flag keep their
    values, as do the two scheduling flags, the tick queue and the log.
    Afterwards [empty] is true whatever [size] says. *)
Theorem destroy_frame (w : world) :
  exists w',
    destroy w = Normal tt w' /\
    readable (stream w') = false /\
    writable (stream w') = false /\
    _buffer (stream w') = [] /\
    empty (stream w') = true /\
    size (stream w') = size (stream w) /\
    ended (stream w') = ended (stream w) /\
    encoding (stream w') = encoding (stream w) /\
    maxSize (stream w') = maxSize (stream w) /\
    _wait (stream w') = _wait (stream w) /\
    _flushing (stream w') = _flushing (stream w) /\
    _wasFull (stream w') = _wasFull (stream w) /\
    ticks w' = ticks w /\
    log w' = log w.
Proof.
  destruct w as [[sz enc rd wr en mx buf wt fl wf] tk lg].
  rewrite destroy_eq. eexists. split; [reflexivity|].
  cbn. repeat split.
Qed.

(** C10.  A zero-length chunk: on a writable stream that has not ended the
    write succeeds and appends the chunk; [empty] is then false and [size]
    is what it was. *)
Theorem write_zero_length (d : data) (w : world) :
  writable (stream w) = true ->
  ended (stream w) = false ->
  chunk_length (toChunk newBuffer d) = 0 ->
  exists b w',
    write newBuffer d w = Normal b w' /\
    _buffer (stream w') = _buffer (stream w) ++ [toChunk newBuffer d] /\
    empty (stream w') = false /\
    size (stream w') = size (stream w).
Proof.
  destruct w as [[sz enc rd wr en mx buf wt fl wf] tk lg].
  cbn [stream writable ended]. intros -> -> Hlen.
  rewrite write_eq. cbn [negb orb]. cbn zeta.
  eexists. eexists. split; [reflexivity|].
  cbn [stream _buffer size]. split; [reflexivity|]. split; [|lia].
  unfold empty. cbn [_buffer]. rewrite length_app. cbn [List.length].
  apply Nat.eqb_neq. lia.
Qed.

(** C4.  One "drain" per edge.  In every world reached from the constructor
    by method calls and callbacks, in any order, a step emits "drain" once
    when it takes the stream from full to not full and never otherwise: so
    never when the stream is full after the step and never when it was not
    full before it. *)
Theorem single_drain_edge (m : option Z) (src : option data)
        (acts : list action) (a : action) :
  let w := run newBuffer pauses acts (BufferedStream_new newBuffer m src) in
  let w' := step newBuffer pauses a w in
  exists evs,
    log w' = log w ++ evs /\
    count_drain evs =
      if full (stream w) && negb (full (stream w')) then 1%nat else 0%nat.
Proof.
  intros w w'.
  pose proof (reachable_full_recorded m src acts) as Hrec. fold w in Hrec.
  destruct (step_drain_edge a w Hrec) as [_ Hcount]. fold w' in Hcount.
  destruct (step_log_extends a w) as [evs Hevs]. fold w' in Hevs.
  exists evs. split; [exact Hevs|].
  rewrite Hevs, count_drain_app in Hcount. lia.
Qed.

(** C6.  Termination after [end()].  On a stream with an empty buffer, not
    paused and not ended, [end()] does not throw; once the callbacks pending
    before the call and the finalization callback have run (one step when
    none was pending) the tick queue is empty, "end" has been emitted and
    the stream is neither readable nor writable. *)
Theorem end_terminates (w : world) :
  empty (stream w) = true ->
  _wait (stream w) = false ->
  ended (stream w) = false ->
  let w1 := step newBuffer pauses (Call (CEnd None)) w in
  let w2 := run_ticks newBuffer pauses (S (List.length (ticks w))) w1 in
  throws (end_ newBuffer None w) = false /\
  ticks w2 = [] /\
  count_end (log w2) = S (count_end (log w) + count_endticks (ticks w)) /\
  readable (stream w2) = false /\
  writable (stream w2) = false.
Proof.
  destruct w as [[sz enc rd wr en mx buf wt fl wf] tk lg].
  unfold empty. cbn [stream _buffer _wait ended ticks log].
  intros Hbuf -> ->. apply length_zero_nil in Hbuf. subst buf.
  cbv zeta.
  rewrite end_throws. cbn [stream ended orb].
  replace (step newBuffer pauses (Call (CEnd None))
             (mkWorld (mkStream sz enc rd wr false mx [] false fl wf) tk lg))
    with (mkWorld (mkStream sz enc rd wr true mx [] false fl wf) (tk ++ [EndTick]) lg)
    by (unfold step, do_call; rewrite end_eq; reflexivity).
  replace (S (List.length tk)) with (List.length (tk ++ [EndTick]))
    by (rewrite length_app; cbn; lia).
  match goal with
  | |- context [run_ticks _ _ _ ?x] =>
      destruct (@run_ticks_empty (tk ++ [EndTick]) x eq_refl eq_refl)
        as [I1 I2 I3 I4 I5 I6 I7 I8]
  end.
  cbn [stream ticks log] in *.
  split; [reflexivity|]. split; [exact I1|]. split.
  - rewrite I3. unfold count_endticks. rewrite filter_app, length_app. cbn. lia.
  - apply I5. apply in_or_app. right. left. reflexivity.
Qed.


(** X17.  Accounting, on the runs in which [destroy] is only called by the
    finalization callback: [size] is the sum of the lengths of the queued
    chunks, and a destroyed stream has an empty buffer and [size] zero. *)
Lemma size_accounts_without_direct_destroy
      (m : option Z) (src : option data) (acts : list action) :
  no_direct_destroy acts ->
  let s := stream (run newBuffer pauses acts (BufferedStream_new newBuffer m src)) in
  size s = sum_lengths (_buffer s) /\
  (readable s = false -> _buffer s = [] /\ size s = 0).
Proof.
  intros Hnd s.
  pose proof (run_tidy Hnd (new_tidy m src)) as [Hsize _ Hclosed _].
  fold s in Hsize, Hclosed. split; [exact Hsize|].
  intros Hrd. destruct (Hclosed Hrd) as [_ Hbuf].
  split; [exact Hbuf|]. rewrite Hsize, Hbuf. reflexivity.
Qed.

(** *** Callbacks of a paused stream *)

Lemma step_tick_paused (t : tick) (rest : list tick) (w : world) :
  _wait (stream w) = true ->
  full_recorded (stream w) ->
  ticks w = t :: rest ->
  let w' := step newBuffer pauses Tick w in
  ticks w' = rest /\
  _wait (stream w') = true /\
  full_recorded (stream w') /\
  empty (stream w') = empty (stream w) /\
  log w' = log w ++ (if is_endtick t && empty (stream w) then [EvEnd] else []) /\
  (empty (stream w) = false -> stream w' = stream w).
Proof.
  destruct w as [[sz enc rd wr en mx buf wt fl wf] tk lg].
  unfold full_recorded. cbn [stream ticks log _wait _wasFull].
  intros -> Hrec ->. cbv zeta.
  destruct t; step_eq; unfold full, empty in *; cbn zeta; js_simpl; break_ifs;
    try (exfalso; lia);
    cbn [is_endtick andb List.length Nat.eqb];
    rewrite ?app_nil_r; repeat split; try reflexivity; try discriminate; try lia.
Qed.

Lemma run_ticks_paused (n : nat) :
  forall w,
    _wait (stream w) = true ->
    full_recorded (stream w) ->
    let w' := run_ticks newBuffer pauses n w in
    ticks w' = skipn n (ticks w) /\
    _wait (stream w') = true /\
    log w' = log w ++ (if empty (stream w)
                       then repeat EvEnd (count_endticks (firstn n (ticks w)))
                       else []) /\
    (empty (stream w) = false -> stream w' = stream w).
Proof.
  induction n as [|n IH]; intros w Hwait Hrec; cbv zeta.
  - cbn. destruct (empty (stream w)); rewrite app_nil_r; auto.
  - destruct (ticks w) as [|t rest] eqn:Hq.
    + rewrite run_ticks_idle by exact Hq. rewrite Hq. cbn.
      destruct (empty (stream w)); rewrite app_nil_r; auto.
    + rewrite run_ticks_S.
      destruct (@step_tick_paused t rest w Hwait Hrec Hq)
        as (Hq1 & Hwait1 & Hrec1 & Hemp1 & Hlog1 & Hst1).
      destruct (IH _ Hwait1 Hrec1) as (Hq2 & Hwait2 & Hlog2 & Hst2).
      rewrite Hq1 in Hq2, Hlog2. rewrite Hemp1 in Hlog2, Hst2.
      split; [exact Hq2|]. split; [exact Hwait2|]. split.
      * rewrite Hlog2, Hlog1, <- app_assoc. f_equal.
        cbn [firstn]. unfold count_endticks. cbn [filter].
        destruct (empty (stream w)), t; cbn; rewrite ?andb_false_r; reflexivity.
      * intros He. rewrite (Hst2 He). exact (Hst1 He).
Qed.


(** C5, as the code has it.  While a stream is paused, the callbacks that
    are pending run once each and schedule nothing: after [n] of them the
    tick queue is the old one without its first [n] entries, so it runs
    empty, and the stream is still paused.  They emit no "data" and no
    "drain".  When the buffer is not empty they emit nothing at all and
    leave the stream untouched; when it is empty the only signal they can
    emit is "end", from a pending finalization callback. *)
Theorem paused_is_dormant (m : option Z) (src : option data)
        (acts : list action) (n : nat) :
  let w := run newBuffer pauses acts (BufferedStream_new newBuffer m src) in
  _wait (stream w) = true ->
  let w' := run_ticks newBuffer pauses n w in
  ticks w' = skipn n (ticks w) /\
  _wait (stream w') = true /\
  (exists k,
      log w' = log w ++ repeat EvEnd k /\
      (k <= count_endticks (firstn n (ticks w)))%nat /\
      (empty (stream w) = false -> k = 0%nat /\ stream w' = stream w)).
Proof.
  intros w Hwait w'.
  pose proof (reachable_full_recorded m src acts) as Hrec. fold w in Hrec.
  destruct (run_ticks_paused n w Hwait Hrec) as (Hq & Hw & Hlog & Hst).
  fold w' in Hq, Hw, Hlog, Hst.
  split; [exact Hq|]. split; [exact Hw|].
  destruct (empty (stream w)) eqn:He.
  - exists (count_endticks (firstn n (ticks w))).
    split; [exact Hlog|]. split; [lia|]. discriminate.
  - exists 0%nat. split; [exact Hlog|]. split; [lia|]. auto.
Qed.

(** *** Delivery once the stream is resumed *)

Lemma first_flush_tick (q : list tick) :
  In FlushTick q ->
  exists k rest, q = repeat EndTick k ++ FlushTick :: rest.
Proof.
  induction q as [|t q IH]; intros Hin; [destruct Hin|].
  destruct t.
  - exists 0%nat, q. reflexivity.
  - destruct Hin as [Ht|Hin]; [discriminate|].
    destruct (IH Hin) as (k & rest & ->).
    exists (S k), rest. reflexivity.
Qed.

(** A finalization callback that finds data in the buffer of a stream that
    is not paused goes back to the end of the tick queue. *)
Lemma end_ticks_requeue (k : nat) :
  forall w q,
    ticks w = repeat EndTick k ++ q ->
    _wait (stream w) = false ->
    empty (stream w) = false ->
    run_ticks newBuffer pauses k w = mkWorld (stream w) (q ++ repeat EndTick k) (log w).
Proof.
  induction k as [|k IH]; intros w q Hq Hwait Hemp.
  - cbn in *. rewrite app_nil_r. destruct w; cbn in *; subst; reflexivity.
  - rewrite run_ticks_S.
    destruct w as [[sz enc rd wr en mx buf wt fl wf] tk lg].
    unfold empty in Hemp. cbn [stream ticks log _wait _buffer] in *. subst tk wt.
    cbn [repeat app]. step_eq. js_simpl. rewrite Hemp.
    rewrite (IH _ (q ++ [EndTick])).
    + cbn [stream log]. rewrite <- app_assoc. reflexivity.
    + cbn [ticks]. rewrite app_assoc. reflexivity.
    + reflexivity.
    + exact Hemp.
Qed.

Lemma no_pause_data (enc : option string) (b : list chunk) :
  existsb is_pause (data_events enc b) = false.
Proof. induction b as [|c b IH]; [reflexivity|exact IH]. Qed.

Lemma step_flush_tick_drains (rest : list tick) (w : world) :
  ticks w = FlushTick :: rest ->
  _wait (stream w) = false ->
  readable (stream w) = true ->
  (forall evs, pauses (log w ++ evs) = false) ->
  let w' := step newBuffer pauses Tick w in
  ticks w' = rest /\
  _buffer (stream w') = [] /\
  data_chunks (log w') = data_chunks (log w) ++ _buffer (stream w) /\
  count_end (log w') = count_end (log w).
Proof.
  destruct w as [[sz enc rd wr en mx buf wt fl wf] tk lg].
  cbn [stream ticks log _wait _buffer readable]. intros -> -> -> Hq. cbv zeta.
  step_eq. rewrite !(drain_events_undisturbed _ _ _ Hq).
  rewrite !data_chunks_data, !no_pause_data, !skipn_all.
  unfold empty. cbn zeta. js_simpl. break_ifs;
    try discriminate;
    rewrite ?data_chunks_app, ?data_chunks_data, ?count_end_app, ?count_end_data;
    cbn; rewrite ?app_nil_r; repeat split; lia.
Qed.

Lemma count_end_pos (l : list event) :
  (0 < count_end l)%nat -> In EvEnd l.
Proof.
  unfold count_end. induction l as [|e l IH]; cbn; [lia|].
  destruct e; cbn; auto.
Qed.

Lemma count_endticks_pos (q : list tick) :
  In EndTick q -> (0 < count_endticks q)%nat.
Proof.
  unfold count_endticks. induction q as [|t q IH]; cbn; [tauto|].
  destruct t; cbn; [|lia]. intros [H|H]; [discriminate|auto].
Qed.

(** From a stream that is not paused, at most twice as many callbacks as are
    pending empty the buffer and the tick queue; the queued chunks are
    emitted in order and every pending finalization callback emits "end". *)
Lemma run_ticks_delivers (w : world) :
  _wait (stream w) = false ->
  (readable (stream w) = false -> _buffer (stream w) = []) ->
  (empty (stream w) = false -> In FlushTick (ticks w)) ->
  (forall evs, pauses (log w ++ evs) = false) ->
  let w' := run_ticks newBuffer pauses (2 * List.length (ticks w)) w in
  ticks w' = [] /\
  _buffer (stream w') = [] /\
  data_chunks (log w') = data_chunks (log w) ++ _buffer (stream w) /\
  (In EndTick (ticks w) -> (count_end (log w) < count_end (log w'))%nat).
Proof.
  intros Hwait Hclosed Hflush Hquiet. cbv zeta.
  destruct (empty (stream w)) eqn:Hemp.
  - assert (Hbuf : _buffer (stream w) = [])
      by (apply length_zero_nil; exact Hemp).
    replace (2 * List.length (ticks w))%nat
      with (List.length (ticks w) + List.length (ticks w))%nat by lia.
    rewrite run_ticks_add.
    destruct (@run_ticks_empty (ticks w) w eq_refl Hbuf) as [I1 I2 I3 I4 I5 I6 I7 I8].
    rewrite run_ticks_idle by exact I1.
    rewrite Hbuf, app_nil_r. repeat split; auto.
    intros Hin. apply count_endticks_pos in Hin. lia.
  - destruct (first_flush_tick _ (Hflush eq_refl)) as (k & rest & Hq).
    assert (Hrd : readable (stream w) = true).
    { destruct (readable (stream w)); [reflexivity|].
      unfold empty in Hemp. rewrite Hclosed in Hemp by reflexivity. discriminate. }
    rewrite Hq, length_app, repeat_length. cbn [List.length].
    replace (2 * (k + S (List.length rest)))%nat
      with (k + (1 + (List.length (rest ++ repeat EndTick k) + S (List.length rest))))%nat
      by (rewrite length_app, repeat_length; lia).
    rewrite run_ticks_add, (end_ticks_requeue k w _ Hq Hwait Hemp).
    rewrite run_ticks_add.
    change (run_ticks newBuffer pauses 1 ?x) with (step newBuffer pauses Tick x).
    match goal with
    | |- context [step newBuffer pauses Tick ?x] =>
        destruct (@step_flush_tick_drains (rest ++ repeat EndTick k) x eq_refl
                    Hwait Hrd Hquiet)
          as (Hq1 & Hb1 & Hd1 & He1);
        set (w1 := step newBuffer pauses Tick x) in *
    end.
    cbn [stream log] in Hd1, He1.
    rewrite run_ticks_add.
    replace (List.length (rest ++ repeat EndTick k)) with (List.length (ticks w1))
      by (rewrite Hq1; reflexivity).
    destruct (@run_ticks_empty (ticks w1) w1 eq_refl Hb1) as [I1 I2 I3 I4 I5 I6 I7 I8].
    rewrite run_ticks_idle by exact I1.
    repeat split; auto.
    + congruence.
    + intros Hin. rewrite I3, He1, Hq1.
      assert (In EndTick (rest ++ repeat EndTick k)).
      { apply in_app_or in Hin. apply in_or_app.
        destruct Hin as [Hin|[Hin|Hin]]; [right; exact Hin|discriminate|left; exact Hin]. }
      apply count_endticks_pos in H. lia.
Qed.

(** *** The finalization callback *)

Lemma step_end_scheduled (a : action) (w : world) :
  end_scheduled w -> end_scheduled (step newBuffer pauses a w).
Proof.
  destruct w as [[sz enc rd wr en mx buf wt fl wf] tk lg].
  unfold end_scheduled. cbn [stream ticks ended]. intros Hinv.
  destruct a as [[d|arg| | | | |e]|]; [ | | | | | | |destruct tk as [|[|] tk']];
    step_eq; unfold empty; cbn zeta; js_simpl; break_ifs;
    rewrite ?in_app_iff; cbn [In] in *;
    intuition (try discriminate; try congruence).
Qed.

Lemma new_end_scheduled (m : option Z) (src : option data) :
  end_scheduled (BufferedStream_new newBuffer m src).
Proof.
  unfold BufferedStream_new, fresh, end_scheduled.
  destruct src as [d|]; [rewrite end_eq|]; cbn [negb]; cbn zeta; js_simpl;
    [reflexivity|intros []].
Qed.

(** X16.  The part of C2 that the code keeps: from the constructor on, a step
    emits "end" at most once, and when it does the step is a callback that
    found the buffer empty on a stream on which [end] had been called. *)
Lemma end_only_when_drained (m : option Z) (src : option data)
      (acts : list action) (a : action) :
  let w := run newBuffer pauses acts (BufferedStream_new newBuffer m src) in
  let w' := step newBuffer pauses a w in
  count_end (log w') = count_end (log w) \/
  (count_end (log w') = S (count_end (log w)) /\
   a = Tick /\ empty (stream w) = true /\ ended (stream w) = true).
Proof.
  intros w w'.
  assert (Hinv : end_scheduled w).
  { apply run_invariant; [apply step_end_scheduled|apply new_end_scheduled]. }
  subst w'. revert Hinv. generalize w. clear w. intros w.
  destruct w as [[sz enc rd wr en mx buf wt fl wf] tk lg].
  unfold end_scheduled. cbn [stream ticks ended log]. intros Hinv.
  destruct a as [[d|arg| | | | |e]|]; [ | | | | | | |destruct tk as [|[|] tk']];
    step_eq; unfold empty; cbn zeta; js_simpl; drain_facts; break_ifs;
    rewrite ?count_end_app;
    repeat match goal with H : count_end _ = 0%nat |- _ => rewrite H end;
    cbn [count_end filter is_end List.length];
    try (left; lia);
    right; cbn [In] in Hinv; rewrite Hinv by (left; reflexivity);
    repeat split; try reflexivity; try lia; assumption.
Qed.

Lemma resume_schedules (w : world) :
  ended (stream w) = true ->
  let w' := step newBuffer pauses (Call CResume) w in
  _wait (stream w') = false /\
  (empty (stream w') = false -> In FlushTick (ticks w')) /\
  In EndTick (ticks w').
Proof.
  destruct w as [[sz enc rd wr en mx buf wt fl wf] tk lg].
  cbn [stream ended]. intros ->. cbv zeta.
  step_eq. unfold empty. js_simpl.
  split; [reflexivity|]. split.
  - intros ->. apply in_or_app. left. apply in_or_app. right. left. reflexivity.
  - apply in_or_app. right. left. reflexivity.
Qed.

(** C1.  Order preservation.  Take any run of method calls and callbacks
    from the constructor in which [destroy] is left to the finalization
    callback; [written] are the chunks of the constructor's source and of
    the calls of [write] and [end] that did not throw, in call order.
    - At every point the chunks emitted so far, followed by the chunks still
      queued, are [written], chunk by chunk and so also concatenated: nothing
      is dropped, duplicated or reordered, however [pause] and [resume] are
      interleaved, be it between callbacks or by a listener in mid-drain.
    - Once "end" has been emitted, the chunks emitted are [written].
    - Once [end] has been called, a [resume] followed by at most twice as
      many callbacks as are then pending leaves the tick queue empty, with
      "end" emitted and the chunks emitted being [written], provided the
      listeners do not pause the stream again. *)
Theorem order_preservation (m : option Z) (src : option data) (acts : list action) :
  no_direct_destroy acts ->
  let w0 := BufferedStream_new newBuffer m src in
  let w := run newBuffer pauses acts w0 in
  let written := source_chunks newBuffer src ++ accepted newBuffer pauses acts w0 in
  data_chunks (log w) ++ _buffer (stream w) = written /\
  (In EvEnd (log w) -> data_chunks (log w) = written) /\
  (ended (stream w) = true ->
   let wr := step newBuffer pauses (Call CResume) w in
   (forall evs, pauses (log wr ++ evs) = false) ->
   let w' := run_ticks newBuffer pauses (2 * List.length (ticks wr)) wr in
   ticks w' = [] /\ In EvEnd (log w') /\ data_chunks (log w') = written).
Proof.
  intros Hnd w0 w written.
  pose proof (run_tidy Hnd (new_tidy m src)) as Htidy.
  fold w0 w written in Htidy.
  destruct Htidy as [Hsize Hfifo Hclosed Hend].
  split; [exact Hfifo|]. split.
  - intros Hin. destruct (Hclosed (Hend Hin)) as [_ Hbuf].
    rewrite Hbuf, app_nil_r in Hfifo. exact Hfifo.
  - intros Hended wr Hquiet w'.
    assert (Htr : tidy written wr).
    { pose proof (@step_tidy written (Call CResume) w eq_refl
                    (mkTidy w Hsize Hfifo Hclosed Hend)) as H.
      cbn [accepted_by] in H. rewrite app_nil_r in H. exact H. }
    destruct Htr as [Hsize' Hfifo' Hclosed' Hend'].
    destruct (resume_schedules w Hended) as (Hwait & Hflush & Hfin).
    fold wr in Hwait, Hflush, Hfin.
    destruct (@run_ticks_delivers wr Hwait
                (fun H => proj2 (Hclosed' H)) Hflush Hquiet)
      as (Hq & Hbuf & Hdata & Hcount).
    fold w' in Hq, Hbuf, Hdata, Hcount.
    split; [exact Hq|]. split.
    + apply count_end_pos. specialize (Hcount Hfin). lia.
    + rewrite Hdata. exact Hfifo'.
Qed.

(** ** Further properties of the methods *)

(** *** The constructor *)

Lemma source_flush_callback (limit : Z) (c : chunk) (wf : bool) :
  wf = (0 <=? limit) && (limit <? chunk_length c) ->
  step newBuffer pauses Tick
    (mkWorld (mkStream (chunk_length c) None true true true limit [c] false true wf)
             [FlushTick; EndTick] [])
  = mkWorld (mkStream 0 None true true true limit [] (pauses [EvData c None]) false false)
            [EndTick]
            ([EvData c None]
               ++ (if pauses [EvData c None] then [EvPause] else [])
               ++ (if wf then [EvDrain] else [])).
Proof.
  intros Hwf. pose proof (chunk_length_nonneg c) as Hlen.
  unfold step. cbn [ticks stream log]. unfold run_tick.
  rewrite flush_tick_eq, flush_eq.
  cbn [negb andb truthy_encoding drain_events app].
  destruct (pauses [EvData c None]);
    cbn [data_chunks List.length skipn sum_lengths fold_right existsb is_pause orb];
    rewrite ?Z.add_0_r, ?Z.sub_diag;
    replace ((0 <=? limit) && (limit <? 0)) with false by lia;
    destruct wf;
    cbn [andb negb after]; cbv zeta; unfold empty; js_simpl;
    cbn [List.length Nat.eqb app]; js_simpl; reflexivity.
Qed.

(** X1.  [new BufferedStream(maxSize, source)] with a string or Buffer
    source: the two callbacks it leaves pending emit the source as one chunk,
    "pause" if a listener pauses at that chunk, "drain" if the chunk is longer
    than a non-negative [maxSize], and "end" once; the stream is then
    destroyed and nothing is pending. *)
Theorem constructed_from_source (m : option Z) (d : data) :
  let c := toChunk newBuffer d in
  let limit := match m with Some z => z | None => -1 end in
  let w := run_ticks newBuffer pauses 2 (BufferedStream_new newBuffer m (Some d)) in
  log w = [EvData c None]
            ++ (if pauses [EvData c None] then [EvPause] else [])
            ++ (if (0 <=? limit) && (limit <? chunk_length c) then [EvDrain] else [])
            ++ [EvEnd] /\
  ticks w = [] /\
  _buffer (stream w) = [] /\
  size (stream w) = 0 /\
  ended (stream w) = true /\
  readable (stream w) = false /\
  writable (stream w) = false.
Proof.
  cbv zeta. unfold BufferedStream_new, fresh. rewrite end_eq.
  cbn [negb app after]. cbn zeta. rewrite Z.add_0_l.
  set (c := toChunk newBuffer d).
  set (limit := match m with Some z => z | None => -1 end).
  rewrite !run_ticks_S. change (run_ticks newBuffer pauses 0 ?x) with x.
  rewrite source_flush_callback
    by (destruct ((0 <=? limit) && (limit <? chunk_length c)); reflexivity).
  step_eq. cbn [List.length Nat.eqb stream log ticks _buffer size ended readable writable].
  split; [|repeat split].
  rewrite <- !app_assoc.
  destruct ((0 <=? limit) && (limit <? chunk_length c)); reflexivity.
Qed.

(** *** What no method changes, and what changes one way only *)

Lemma step_flags (a : action) (w : world) :
  maxSize (stream (step newBuffer pauses a w)) = maxSize (stream w) /\
  Bool.le (ended (stream w)) (ended (stream (step newBuffer pauses a w))) /\
  Bool.le (readable (stream (step newBuffer pauses a w))) (readable (stream w)) /\
  Bool.le (writable (stream (step newBuffer pauses a w))) (writable (stream w)).
Proof.
  destruct w as [[sz enc rd wr en mx buf wt fl wf] tk lg].
  destruct a as [[d|arg| | | | |e]|]; [ | | | | | | |destruct tk as [|[|] tk']];
    step_eq; cbn zeta; js_simpl; break_ifs;
    repeat split; try reflexivity;
    match goal with |- Bool.le ?b _ => destruct b; cbn; auto end.
Qed.

Lemma run_maxSize (acts : list action) (w : world) :
  maxSize (stream (run newBuffer pauses acts w)) = maxSize (stream w).
Proof.
  revert w. induction acts as [|a acts IH]; intros w; [reflexivity|].
  rewrite run_cons, IH. apply step_flags.
Qed.

Lemma run_flags (acts : list action) (w : world) :
  Bool.le (ended (stream w)) (ended (stream (run newBuffer pauses acts w))) /\
  Bool.le (readable (stream (run newBuffer pauses acts w))) (readable (stream w)) /\
  Bool.le (writable (stream (run newBuffer pauses acts w))) (writable (stream w)).
Proof.
  revert w. induction acts as [|a acts IH]; intros w.
  - cbn. repeat split; match goal with |- Bool.le ?b _ => destruct b; cbn; auto end.
  - rewrite run_cons.
    destruct (IH (step newBuffer pauses a w)) as (I1 & I2 & I3).
    destruct (step_flags a w) as (_ & S1 & S2 & S3).
    repeat split.
    + destruct (ended (stream w)); cbn in *; [|exact I].
      rewrite S1 in I1. exact I1.
    + destruct (readable (stream (run newBuffer pauses acts (step newBuffer pauses a w))));
        cbn in *; [|exact I].
      rewrite I2 in S2. exact S2.
    + destruct (writable (stream (run newBuffer pauses acts (step newBuffer pauses a w))));
        cbn in *; [|exact I].
      rewrite I3 in S3. exact S3.
Qed.

Lemma write_thrown (d : data) (w : world) :
  negb (writable (stream w)) || ended (stream w) = true ->
  write newBuffer d w = Thrown "Stream is not writable" w.
Proof.
  destruct w as [[sz enc rd wr en mx buf wt fl wf] tk lg]. cbn [stream writable ended].
  intros H. rewrite write_eq, H. reflexivity.
Qed.

Lemma end_thrown (arg : option data) (w : world) :
  ended (stream w) = true ->
  end_ newBuffer arg w = Thrown "Stream is already ended" w.
Proof.
  destruct w as [[sz enc rd wr en mx buf wt fl wf] tk lg]. cbn [stream ended].
  intros ->. rewrite end_eq. reflexivity.
Qed.

(** X2.  The lifecycle flags move one way only, whatever is called and
    whichever callbacks run: [ended] is never cleared, [readable] and
    [writable] are never set again; and [maxSize] is never assigned. *)
Theorem lifecycle_is_monotone (acts : list action) (w : world) :
  let w' := run newBuffer pauses acts w in
  Bool.le (ended (stream w)) (ended (stream w')) /\
  Bool.le (readable (stream w')) (readable (stream w)) /\
  Bool.le (writable (stream w')) (writable (stream w)) /\
  maxSize (stream w') = maxSize (stream w).
Proof.
  cbv zeta. destruct (run_flags acts w) as (H1 & H2 & H3).
  repeat split; try assumption. apply run_maxSize.
Qed.

(** X3.  Once a stream has ended or is no longer writable, every later
    [write] throws, and once it has ended every later [end] throws, however
    many calls and callbacks come in between; the throwing call changes
    nothing. *)
Theorem closed_stream_rejects_forever (acts : list action) (d : data)
        (arg : option data) (w : world) :
  negb (writable (stream w)) || ended (stream w) = true ->
  let w' := run newBuffer pauses acts w in
  write newBuffer d w' = Thrown "Stream is not writable" w' /\
  (ended (stream w) = true ->
   end_ newBuffer arg w' = Thrown "Stream is already ended" w').
Proof.
  intros Hclosed w'.
  destruct (run_flags acts w) as (He & _ & Hw). fold w' in He, Hw.
  split.
  - apply write_thrown.
    destruct (writable (stream w)), (ended (stream w)), (writable (stream w')),
      (ended (stream w')); cbn in *; congruence.
  - intros Hen. apply end_thrown. rewrite Hen in He. exact He.
Qed.

(** *** Accounting on every run *)

Lemma step_size_bound (a : action) (w : world) :
  sum_lengths (_buffer (stream w)) <= size (stream w) ->
  sum_lengths (_buffer (stream (step newBuffer pauses a w)))
  <= size (stream (step newBuffer pauses a w)).
Proof.
  destruct w as [[sz enc rd wr en mx buf wt fl wf] tk lg].
  cbn [stream size _buffer]. intros Hle.
  pose proof (sum_lengths_nonneg buf) as Hbuf.
  destruct a as [[d|arg| | | | |e]|]; [ | | | | | | |destruct tk as [|[|] tk']];
    step_eq; cbn zeta; js_simpl; drain_facts; break_ifs;
    rewrite ?sum_lengths_app; cbn [sum_lengths fold_right] in *; lia.
Qed.

(** X4.  On every run, direct calls of [destroy] included, [size] is never
    below the number of bytes queued, and so never negative. *)
Theorem size_bounds_queue (m : option Z) (src : option data) (acts : list action) :
  let s := stream (run newBuffer pauses acts (BufferedStream_new newBuffer m src)) in
  0 <= sum_lengths (_buffer s) <= size s.
Proof.
  cbv zeta. split; [apply sum_lengths_nonneg|].
  apply run_invariant
    with (P := fun w => sum_lengths (_buffer (stream w)) <= size (stream w)).
  - apply step_size_bound.
  - unfold BufferedStream_new, fresh.
    destruct src as [d|]; [rewrite end_eq|]; cbn [negb]; cbn zeta; js_simpl;
      cbn [app sum_lengths fold_right]; lia.
Qed.

(** *** A stream without a limit *)

Lemma run_never_drained (acts : list action) :
  forall w,
    maxSize (stream w) < 0 ->
    full_recorded (stream w) ->
    count_drain (log (run newBuffer pauses acts w)) = count_drain (log w).
Proof.
  induction acts as [|a acts IH]; intros w Hneg Hrec; [reflexivity|].
  rewrite run_cons.
  destruct (step_drain_edge a w Hrec) as [Hrec' Hcount].
  rewrite IH; [|destruct (step_flags a w) as [-> _]; exact Hneg|exact Hrec'].
  rewrite Hcount. unfold full at 1.
  replace (0 <=? maxSize (stream w)) with false by lia. cbn. lia.
Qed.

(** X5.  A stream made without a numeric [maxSize], or with a negative one,
    has no limit: in every state it reaches [full] is false, no "drain" was
    ever emitted, and a [write] that is accepted returns [true]. *)
Theorem unlimited_never_full (m : option Z) (src : option data)
        (acts : list action) (d : data) :
  match m with Some z => z | None => -1 end < 0 ->
  let w := run newBuffer pauses acts (BufferedStream_new newBuffer m src) in
  full (stream w) = false /\
  count_drain (log w) = 0%nat /\
  (writable (stream w) = true -> ended (stream w) = false ->
   exists w', write newBuffer d w = Normal true w').
Proof.
  intros Hneg w.
  assert (Hnew : maxSize (stream (BufferedStream_new newBuffer m src))
                 = match m with Some z => z | None => -1 end).
  { unfold BufferedStream_new, fresh.
    destruct src as [d0|]; [rewrite end_eq|]; cbn [negb]; cbn zeta; js_simpl; reflexivity. }
  assert (Hmax : maxSize (stream w) < 0).
  { unfold w. rewrite run_maxSize, Hnew. exact Hneg. }
  split; [|split].
  - unfold full. replace (0 <=? maxSize (stream w)) with false by lia. reflexivity.
  - unfold w. rewrite run_never_drained.
    + unfold BufferedStream_new, fresh.
      destruct src as [d0|]; [rewrite end_eq|]; cbn [negb]; cbn zeta; js_simpl; reflexivity.
    + rewrite Hnew. exact Hneg.
    + apply new_full_recorded.
  - intros Hwr Hen.
    destruct w as [[sz enc rd wr en mx buf wt fl wf] tk lg].
    cbn [stream writable ended maxSize] in *. subst wr en.
    rewrite write_eq. cbn [negb orb]. cbv zeta.
    replace (0 <=? mx) with false by lia. cbn [andb negb].
    eexists. reflexivity.
Qed.

(** *** After destruction *)

Lemma step_closed_silent (a : action) (w : world) :
  readable (stream w) = false ->
  readable (stream (step newBuffer pauses a w)) = false /\
  data_chunks (log (step newBuffer pauses a w)) = data_chunks (log w).
Proof.
  destruct w as [[sz enc rd wr en mx buf wt fl wf] tk lg].
  cbn [stream readable log]. intros ->.
  destruct a as [[d|arg| | | | |e]|]; [ | | | | | | |destruct tk as [|[|] tk']];
    step_eq; rewrite ?andb_false_r; cbn zeta; js_simpl; break_ifs;
    rewrite ?data_chunks_app; cbn [data_chunks]; rewrite ?app_nil_r;
    split; reflexivity.
Qed.

Lemma run_closed_silent (acts : list action) :
  forall w,
    readable (stream w) = false ->
    readable (stream (run newBuffer pauses acts w)) = false /\
    data_chunks (log (run newBuffer pauses acts w)) = data_chunks (log w).
Proof.
  induction acts as [|a acts IH]; intros w Hrd; [split; [exact Hrd|reflexivity]|].
  rewrite run_cons.
  destruct (step_closed_silent a w Hrd) as [Hrd' Hd'].
  destruct (IH _ Hrd') as [Hrd'' Hd''].
  split; [exact Hrd''|congruence].
Qed.

Lemma step_end_closed (a : action) (w : world) :
  end_closed w -> end_closed (step newBuffer pauses a w).
Proof.
  destruct w as [[sz enc rd wr en mx buf wt fl wf] tk lg].
  unfold end_closed. cbn [stream log readable]. intros Hinv.
  destruct a as [[d|arg| | | | |e]|]; [ | | | | | | |destruct tk as [|[|] tk']];
    step_eq; cbn zeta; js_simpl; drain_facts; break_ifs;
    rewrite ?in_app_iff; cbn [In];
    try reflexivity;
    intros Hin; try (exfalso; lia);
    try (apply Hinv; intuition (try discriminate); fail);
    try (assert (rd = false) by (apply Hinv; intuition (try discriminate)); subst;
         exfalso; lia).
Qed.

(** X6.  A stream that is not readable any more emits no "data", whatever
    is called on it afterwards and whichever callbacks run; and it stays
    unreadable. *)
Theorem destroyed_emits_no_data (acts : list action) (w : world) :
  readable (stream w) = false ->
  let w' := run newBuffer pauses acts w in
  data_chunks (log w') = data_chunks (log w) /\
  readable (stream w') = false.
Proof.
  intros Hrd w'. destruct (run_closed_silent acts w Hrd) as [H1 H2].
  split; assumption.
Qed.

(** X7.  No "data" follows "end": on every run from the constructor, once
    "end" is in the log the chunks emitted never change again. *)
Theorem no_data_after_end (m : option Z) (src : option data)
        (acts more : list action) :
  let w := run newBuffer pauses acts (BufferedStream_new newBuffer m src) in
  In EvEnd (log w) ->
  data_chunks (log (run newBuffer pauses more w)) = data_chunks (log w).
Proof.
  intros w Hin.
  assert (Hinv : end_closed w).
  { apply run_invariant; [apply step_end_closed|].
    unfold end_closed, BufferedStream_new, fresh.
    destruct src as [d|]; [rewrite end_eq|]; cbn [negb]; cbn zeta; js_simpl;
      intros []. }
  apply run_closed_silent. exact (Hinv Hin).
Qed.

(** *** How the calls compose *)

(** X8.  [pause] does not stand in the way of writes: [pause()] followed by a
    [write] or an [end] leaves the same stream, the same pending callbacks
    and the same log as the two calls in the other order. *)
Theorem pause_commutes_with_write (d : data) (arg : option data) (w : world) :
  run newBuffer pauses [Call CPause; Call (CWrite d)] w
  = run newBuffer pauses [Call (CWrite d); Call CPause] w /\
  run newBuffer pauses [Call CPause; Call (CEnd arg)] w
  = run newBuffer pauses [Call (CEnd arg); Call CPause] w.
Proof.
  destruct w as [[sz enc rd wr en mx buf wt fl wf] tk lg].
  unfold run, step, do_call. cbn [fold_left].
  rewrite ?after_bind_ret, !pause_eq. cbn [after].
  rewrite !write_eq, !end_eq.
  split.
  - destruct (negb wr || en); cbn [after]; cbv zeta; rewrite pause_eq; reflexivity.
  - destruct en; cbn [after]; [rewrite pause_eq; reflexivity|].
    destruct arg as [d'|]; [destruct (negb wr)|]; cbn [after]; cbv zeta;
      rewrite pause_eq; reflexivity.
Qed.

(** X9.  Writes do not pile up callbacks: an accepted [write] leaves
    [_flushing] set and schedules one flush callback if none was marked as
    running; the next [write] schedules none, and both chunks are queued in
    call order. *)
Theorem write_schedules_once (d1 d2 : data) (w : world) :
  writable (stream w) = true ->
  ended (stream w) = false ->
  let w1 := step newBuffer pauses (Call (CWrite d1)) w in
  let w2 := step newBuffer pauses (Call (CWrite d2)) w1 in
  _flushing (stream w1) = true /\
  ticks w1 = (if _flushing (stream w) then ticks w else ticks w ++ [FlushTick]) /\
  ticks w2 = ticks w1 /\
  _buffer (stream w2)
  = _buffer (stream w) ++ [toChunk newBuffer d1; toChunk newBuffer d2].
Proof.
  destruct w as [[sz enc rd wr en mx buf wt fl wf] tk lg].
  cbn [stream writable ended _flushing ticks _buffer]. intros -> ->. cbv zeta.
  unfold step, do_call. rewrite !after_bind_ret, write_eq.
  cbn [negb orb after]. cbv zeta. rewrite write_eq.
  cbn [negb orb after stream _flushing ticks _buffer]. cbv zeta.
  cbn [stream _flushing ticks _buffer].
  rewrite <- app_assoc. repeat split.
Qed.

(** X10.  On a writable stream [end(chunk)] is [write(chunk)] followed by
    [end()]: the two leave the same world, whether the stream had ended
    before or not. *)
Theorem end_with_chunk_composes (d : data) (w : world) :
  writable (stream w) = true ->
  step newBuffer pauses (Call (CEnd (Some d))) w
  = run newBuffer pauses [Call (CWrite d); Call (CEnd None)] w.
Proof.
  destruct w as [[sz enc rd wr en mx buf wt fl wf] tk lg].
  cbn [stream writable]. intros ->.
  unfold run, step, do_call. cbn [fold_left].
  rewrite after_bind_ret, write_eq, end_eq. cbn [negb orb].
  destruct en; cbn [after]; cbv zeta; rewrite end_eq; reflexivity.
Qed.

(** *** The flush chain *)

Lemma step_armed (a : action) (w : world) :
  direct_destroy a = false ->
  armed w -> armed (step newBuffer pauses a w).
Proof.
  destruct w as [[sz enc rd wr en mx buf wt fl wf] tk lg].
  unfold armed, empty. cbn [stream ticks _flushing _wait _buffer].
  intros Ha Harmed.
  destruct a as [[d|arg| | | | |e]|]; [ | | | | | | |destruct tk as [|[|] tk']];
    try discriminate Ha;
    step_eq; cbn zeta; js_simpl; drain_facts;
    try match goal with
        | H : data_chunks _ ++ skipn ?k ?b = ?b |- _ => pose proof (length_skipn k b)
        end;
    break_ifs;
    rewrite ?length_app in *; cbn [List.length] in *;
    rewrite ?in_app_iff; cbn [In] in *;
    destruct fl, wt;
    repeat match goal with
           | H : context [Nat.eqb ?x 0] |- _ =>
               lazymatch type of H with
               | Nat.eqb x 0 = _ => fail
               | _ => destruct (Nat.eqb x 0) eqn:?
               end
           | |- context [Nat.eqb ?x 0] => destruct (Nat.eqb x 0) eqn:?
           end;
    try (exfalso; lia);
    intuition (try discriminate; try congruence).
Qed.

Lemma run_armed (acts : list action) :
  forall w, no_direct_destroy acts -> armed w -> armed (run newBuffer pauses acts w).
Proof.
  induction acts as [|a acts IH]; intros w Hnd Hw; [exact Hw|].
  inversion Hnd as [|? ? Ha Hacts]; subst.
  rewrite run_cons. apply IH; [exact Hacts|]. apply step_armed; assumption.
Qed.

Lemma new_armed (m : option Z) (src : option data) :
  armed (BufferedStream_new newBuffer m src).
Proof.
  unfold BufferedStream_new, fresh, armed, empty.
  destruct src as [d|]; [rewrite end_eq|]; cbn [negb]; cbn zeta; js_simpl;
    cbn [List.length Nat.eqb app In]; split; intros H; try discriminate H; auto.
Qed.

(** X11.  No chunk is left without a callback.  On a run in which [destroy]
    is left to the finalization callback, whenever chunks are queued
    [_flushing] is set, and unless the stream is paused a flush callback is
    pending. *)
Theorem queued_data_has_a_callback (m : option Z) (src : option data)
        (acts : list action) :
  no_direct_destroy acts ->
  let w := run newBuffer pauses acts (BufferedStream_new newBuffer m src) in
  empty (stream w) = false ->
  _flushing (stream w) = true /\
  (_wait (stream w) = false -> In FlushTick (ticks w)).
Proof.
  intros Hnd w Hne.
  destruct (run_armed Hnd (new_armed m src)) as [H1 H2]. fold w in H1, H2.
  split; [exact (H1 Hne)|].
  intros Hwait. destruct (H2 (H1 Hne)) as [Hin|[Hp _]]; [exact Hin|congruence].
Qed.

(** X12.  A stream that is not paused delivers what it holds without any
    further call.  On a run in which [destroy] is left to the finalization
    callback, if the stream is not paused and the listeners do not pause it,
    at most twice as many callbacks as are pending empty the buffer and the
    tick queue, and the chunks emitted are then all the chunks written, in
    write order. *)
Theorem unpaused_stream_delivers (m : option Z) (src : option data)
        (acts : list action) :
  no_direct_destroy acts ->
  let w0 := BufferedStream_new newBuffer m src in
  let w := run newBuffer pauses acts w0 in
  _wait (stream w) = false ->
  (forall evs, pauses (log w ++ evs) = false) ->
  let w' := run_ticks newBuffer pauses (2 * List.length (ticks w)) w in
  ticks w' = [] /\
  _buffer (stream w') = [] /\
  data_chunks (log w') = source_chunks newBuffer src ++ accepted newBuffer pauses acts w0.
Proof.
  intros Hnd w0 w Hwait Hquiet w'.
  destruct (run_tidy Hnd (new_tidy m src)) as [_ Hfifo Hclosed _].
  fold w0 w in Hfifo, Hclosed.
  destruct (run_armed Hnd (new_armed m src)) as [H1 H2]. fold w0 w in H1, H2.
  assert (Hflush : empty (stream w) = false -> In FlushTick (ticks w)).
  { intros Hne. destruct (H2 (H1 Hne)) as [Hin|[Hp _]]; [exact Hin|congruence]. }
  destruct (@run_ticks_delivers w Hwait (fun H => proj2 (Hclosed H)) Hflush Hquiet)
    as (Hq & Hbuf & Hdata & _).
  fold w' in Hq, Hbuf, Hdata.
  split; [exact Hq|]. split; [exact Hbuf|]. rewrite Hdata. exact Hfifo.
Qed.

(** *** [flush] called directly *)

Lemma flush_blocked (w : world) :
  full_recorded (stream w) ->
  negb (_wait (stream w)) && readable (stream w) && negb (empty (stream w)) = false ->
  step newBuffer pauses (Call CFlush) w = w.
Proof.
  destruct w as [[sz enc rd wr en mx buf wt fl wf] tk lg].
  unfold full_recorded, full, empty. cbn [stream _wasFull _wait readable _buffer size maxSize].
  intros Hrec Hcond. step_eq.
  destruct (negb wt && rd) eqn:Hc.
  - assert (buf = []) as ->.
    { destruct buf as [|c rest]; [reflexivity|].
      cbn [List.length Nat.eqb negb] in Hcond. rewrite andb_true_r in Hcond.
      congruence. }
    assert (wt = false) as -> by (destruct wt; [discriminate|reflexivity]).
    cbn [drain_events data_chunks List.length skipn sum_lengths fold_right existsb].
    rewrite Z.sub_0_r, app_nil_r.
    replace (wf && negb ((0 <=? mx) && (mx <? sz))) with false by lia.
    reflexivity.
  - replace (wf && negb ((0 <=? mx) && (mx <? sz))) with false by lia.
    reflexivity.
Qed.

(** X13.  [flush()] on a stream that is paused, or not readable, or has
    nothing queued does nothing at all: in every world reached from the
    constructor it leaves the stream, the pending callbacks and the log as
    they were. *)
Theorem flush_does_nothing_when_blocked (m : option Z) (src : option data)
        (acts : list action) :
  let w := run newBuffer pauses acts (BufferedStream_new newBuffer m src) in
  negb (_wait (stream w)) && readable (stream w) && negb (empty (stream w)) = false ->
  step newBuffer pauses (Call CFlush) w = w.
Proof.
  intros w Hcond. apply flush_blocked; [|exact Hcond].
  apply reachable_full_recorded.
Qed.

(** X14.  [flush()] drains at once: on a readable stream that is not paused,
    with listeners that do not pause it, the call empties the buffer, takes
    the bytes off [size], emits the chunks in queue order with the encoding
    set at that moment, then "drain" if the stream had been full and is not
    any more, and schedules nothing. *)
Theorem flush_drains_now (w : world) :
  _wait (stream w) = false ->
  readable (stream w) = true ->
  (forall evs, pauses (log w ++ evs) = false) ->
  let w' := step newBuffer pauses (Call CFlush) w in
  _buffer (stream w') = [] /\
  size (stream w') = size (stream w) - sum_lengths (_buffer (stream w)) /\
  ticks w' = ticks w /\
  _wait (stream w') = false /\
  log w' = log w
           ++ data_events (truthy_encoding (encoding (stream w))) (_buffer (stream w))
           ++ (if _wasFull (stream w)
                  && negb ((0 <=? maxSize (stream w))
                           && (maxSize (stream w)
                               <? size (stream w) - sum_lengths (_buffer (stream w))))
               then [EvDrain] else []).
Proof.
  destruct w as [[sz enc rd wr en mx buf wt fl wf] tk lg].
  cbn [stream ticks log _wait readable _buffer size encoding maxSize _wasFull].
  intros -> -> Hquiet. cbv zeta. step_eq.
  rewrite !(drain_events_undisturbed _ _ _ Hquiet).
  rewrite !data_chunks_data, !no_pause_data, !skipn_all.
  cbn [negb andb].
  destruct (wf && negb ((0 <=? mx) && (mx <? sz - sum_lengths buf)));
    js_simpl; rewrite <- ?app_assoc, ?app_nil_r; repeat split.
Qed.

(** X15.  The encoding is applied when a chunk is emitted, not when it is
    written: after [setEncoding(e)] a [flush()] emits every queued chunk,
    also those written before, as a string in [e], or as a Buffer when [e] is
    null or the empty string; [setEncoding] itself changes nothing but the
    [encoding] field. *)
Theorem encoding_applies_at_emission (e : option string) (w : world) :
  _wait (stream w) = false ->
  readable (stream w) = true ->
  (forall evs, pauses (log w ++ evs) = false) ->
  let w1 := step newBuffer pauses (Call (CSetEncoding e)) w in
  let w2 := step newBuffer pauses (Call CFlush) w1 in
  w1 = mkWorld (set_encoding e (stream w)) (ticks w) (log w) /\
  exists tail,
    log w2 = log w ++ data_events (truthy_encoding e) (_buffer (stream w)) ++ tail /\
    data_chunks tail = [].
Proof.
  destruct w as [[sz enc rd wr en mx buf wt fl wf] tk lg].
  cbn [stream ticks log _wait readable _buffer].
  intros -> -> Hquiet. cbv zeta.
  unfold step at 2 3, do_call. rewrite setEncoding_eq. cbn [after].
  split; [reflexivity|].
  step_eq.
  rewrite !(drain_events_undisturbed _ _ _ Hquiet).
  rewrite !data_chunks_data, !no_pause_data, !skipn_all.
  cbn [negb andb].
  destruct (wf && negb ((0 <=? mx) && (mx <? sz - sum_lengths buf))); js_simpl.
  - exists [EvDrain]. rewrite <- app_assoc. split; reflexivity.
  - exists []. rewrite app_nil_r. split; reflexivity.
Qed.

End Properties.

(** ** The six streams of bufferedstream_test_noloop.js

    Each is created, paused and left alone: the pending callbacks run out
    and none of the streams emits anything but "pause". *)

Example noloop_bs1 :
  let w := run latin1Buffer never_pauses [Call CPause; Tick; Tick; Tick]
               (BufferedStream_new latin1Buffer None (Some (DString "Hello world" None))) in
  ticks w = [] /\ log w = [EvPause].
Proof. vm_compute. split; reflexivity. Qed.

Example noloop_bs2 :
  let w := run latin1Buffer never_pauses [Call CPause; Tick; Tick; Tick]
               (BufferedStream_new latin1Buffer None (Some (DString "" None))) in
  ticks w = [] /\ log w = [EvPause].
Proof. vm_compute. split; reflexivity. Qed.

Example noloop_bs3 :
  let w := run latin1Buffer never_pauses
               [Call CPause; Call (CWrite (DString "Hello world" None)); Tick; Tick]
               (BufferedStream_new latin1Buffer None None) in
  ticks w = [] /\ log w = [EvPause].
Proof. vm_compute. split; reflexivity. Qed.

Example noloop_bs4 :
  let w := run latin1Buffer never_pauses [Call CPause; Call (CWrite (DString "" None)); Tick; Tick]
               (BufferedStream_new latin1Buffer None None) in
  ticks w = [] /\ log w = [EvPause].
Proof. vm_compute. split; reflexivity. Qed.

Example noloop_bs5 :
  let w := run latin1Buffer never_pauses
               [Call CPause; Call (CEnd (Some (DString "Hello world" None))); Tick; Tick; Tick]
               (BufferedStream_new latin1Buffer None None) in
  ticks w = [] /\ log w = [EvPause].
Proof. vm_compute. split; reflexivity. Qed.

Example noloop_bs6 :
  let w := run latin1Buffer never_pauses
               [Call CPause; Call (CEnd (Some (DString "" None))); Tick; Tick; Tick]
               (BufferedStream_new latin1Buffer None None) in
  ticks w = [] /\ log w = [EvPause].
Proof. vm_compute. split; reflexivity. Qed.

(** ** The claims on concrete streams *)

(** C1 on a run that writes while paused, resumes, and ends with a chunk. *)
Lemma order_preservation_witness :
  no_direct_destroy
    [Call (CWrite (DString "ab" None)); Call CPause; Call (CWrite (DString "c" None));
     Tick; Call CResume; Call (CEnd (Some (DString "d" None))); Call CPause; Tick] /\
  (let acts :=
     [Call (CWrite (DString "ab" None)); Call CPause; Call (CWrite (DString "c" None));
      Tick; Call CResume; Call (CEnd (Some (DString "d" None))); Call CPause; Tick] in
   let w0 := BufferedStream_new latin1Buffer None None in
   let w := run latin1Buffer never_pauses acts w0 in
   let written := source_chunks latin1Buffer None ++ accepted latin1Buffer never_pauses acts w0 in
   data_chunks (log w) ++ _buffer (stream w) = written /\
   (In EvEnd (log w) -> data_chunks (log w) = written) /\
   (ended (stream w) = true ->
    let wr := step latin1Buffer never_pauses (Call CResume) w in
    (forall evs, never_pauses (log wr ++ evs) = false) ->
    let w' := run_ticks latin1Buffer never_pauses (2 * List.length (ticks wr)) wr in
    ticks w' = [] /\ In EvEnd (log w') /\ data_chunks (log w') = written)).
Proof.
  split.
  - repeat constructor.
  - apply (@order_preservation latin1Buffer never_pauses None None). repeat constructor.
Defined.

(** A run of the same calls, evaluated: the three chunks come out in write
    order and "end" follows them. *)
Example fifo_run :
  let acts :=
    [Call (CWrite (DString "ab" None)); Call CPause; Call (CWrite (DString "c" None));
     Tick; Call CResume; Call (CEnd (Some (DString "d" None))); Tick; Tick] in
  let w := run latin1Buffer never_pauses acts (BufferedStream_new latin1Buffer None None) in
  log w = [EvPause; EvResume;
           EvData (list_byte_of_string "ab") None;
           EvData (list_byte_of_string "c") None;
           EvData (list_byte_of_string "d") None;
           EvEnd] /\
  ticks w = [].
Proof. vm_compute. split; reflexivity. Qed.

(** C2 fails on the code: [end()] then [resume()] leaves two finalization
    callbacks pending, and each of them finds the buffer empty and emits
    "end". *)
Lemma end_emitted_twice :
  let w := run latin1Buffer never_pauses [Call (CEnd None); Call CResume; Tick; Tick]
               (BufferedStream_new latin1Buffer None None) in
  log w = [EvResume; EvEnd; EvEnd] /\ count_end (log w) = 2%nat.
Proof. vm_compute. split; reflexivity. Qed.

(** The same with a payload, the constructor's, and a [pause] and [resume]
    before the first callback runs. *)
Example double_end_with_payload :
  let w := run latin1Buffer never_pauses [Call CPause; Call CResume; Tick; Tick; Tick; Tick]
               (BufferedStream_new latin1Buffer None (Some (DString "Hello" None))) in
  log w = [EvPause; EvResume; EvData (list_byte_of_string "Hello") None; EvEnd; EvEnd].
Proof. vm_compute. reflexivity. Qed.

(** [end("")] alone emits "end" once. *)
Example end_with_empty_payload :
  let w := run latin1Buffer never_pauses [Call (CEnd (Some (DString "" None))); Tick; Tick]
               (BufferedStream_new latin1Buffer None None) in
  log w = [EvData [] None; EvEnd] /\ ticks w = [].
Proof. vm_compute. split; reflexivity. Qed.

(** A consumer that pauses the stream at every chunk gets one chunk per
    [resume()], still in write order; [size] follows the buffer. *)
Example pausing_consumer_run :
  let w1 := run latin1Buffer always_pauses
                [Call (CWrite (DString "ab" None)); Call (CWrite (DString "c" None)); Tick]
                (BufferedStream_new latin1Buffer None None) in
  let w2 := run latin1Buffer always_pauses [Call CResume; Tick] w1 in
  log w1 = [EvData (list_byte_of_string "ab") None; EvPause] /\
  _buffer (stream w1) = [list_byte_of_string "c"] /\
  size (stream w1) = 1 /\
  ticks w1 = [] /\
  log w2 = [EvData (list_byte_of_string "ab") None; EvPause; EvResume;
            EvData (list_byte_of_string "c") None; EvPause] /\
  _buffer (stream w2) = [] /\
  size (stream w2) = 0.
Proof. vm_compute. repeat split; reflexivity. Qed.

(** C3 on a stream of capacity 2 that is written three bytes. *)
Lemma write_reports_full_witness :
  exists w',
    write latin1Buffer (DString "abc" None) (BufferedStream_new latin1Buffer (Some 2) None)
    = Normal (negb (full (stream w'))) w' /\
    _buffer (stream w')
    = _buffer (stream (BufferedStream_new latin1Buffer (Some 2) None))
        ++ [toChunk latin1Buffer (DString "abc" None)] /\
    size (stream w')
    = size (stream (BufferedStream_new latin1Buffer (Some 2) None))
      + chunk_length (toChunk latin1Buffer (DString "abc" None)) /\
    (full (stream w') = true <->
     maxSize (stream w') >= 0 /\ size (stream w') > maxSize (stream w')).
Proof.
  apply (@write_reports_full latin1Buffer (DString "abc" None)
           (BufferedStream_new latin1Buffer (Some 2) None)); reflexivity.
Defined.

Example write_returns_false_when_full :
  exists w',
    write latin1Buffer (DString "abc" None) (BufferedStream_new latin1Buffer (Some 2) None)
    = Normal false w'.
Proof. eexists. vm_compute. reflexivity. Qed.

(** C4 on a stream of capacity 2: one "drain" follows the chunks that took
    it from full to not full. *)
Example drain_once :
  let w := run latin1Buffer never_pauses
               [Call (CWrite (DString "abc" None)); Call (CWrite (DString "d" None));
                Tick; Call CFlush; Call CResume; Tick]
               (BufferedStream_new latin1Buffer (Some 2) None) in
  log w = [EvData (list_byte_of_string "abc") None;
           EvData (list_byte_of_string "d") None;
           EvDrain; EvResume].
Proof. vm_compute. reflexivity. Qed.

(** With a consumer that pauses at every chunk and capacity 0, the first
    callback leaves the stream full and emits no "drain"; the second one
    empties it and does. *)
Example drain_waits_for_room :
  let w1 := run latin1Buffer always_pauses
                [Call (CWrite (DString "a" None)); Call (CWrite (DString "b" None)); Tick]
                (BufferedStream_new latin1Buffer (Some 0) None) in
  let w2 := run latin1Buffer always_pauses [Call CResume; Tick] w1 in
  log w1 = [EvData (list_byte_of_string "a") None; EvPause] /\
  full (stream w1) = true /\
  log w2 = [EvData (list_byte_of_string "a") None; EvPause; EvResume;
            EvData (list_byte_of_string "b") None; EvPause; EvDrain] /\
  full (stream w2) = false.
Proof. vm_compute. repeat split; reflexivity. Qed.

(** C5 as stated fails on the code: a paused stream on which [end()] was
    called, before or after the [pause()], emits "end" from the pending
    finalization callback although [resume()] is never called. *)
Lemma end_emitted_while_paused :
  (let w := run latin1Buffer never_pauses [Call CPause; Call (CEnd None)]
                (BufferedStream_new latin1Buffer None None) in
   _wait (stream w) = true /\ log w = [EvPause] /\
   log (step latin1Buffer never_pauses Tick w) = [EvPause; EvEnd]) /\
  (let w := run latin1Buffer never_pauses [Call (CEnd None); Call CPause]
                (BufferedStream_new latin1Buffer None None) in
   _wait (stream w) = true /\ log w = [EvPause] /\
   log (step latin1Buffer never_pauses Tick w) = [EvPause; EvEnd]).
Proof. vm_compute. repeat split; reflexivity. Qed.

(** C5 on the third stream of the test. *)
Lemma paused_is_dormant_witness :
  let w := run latin1Buffer never_pauses [Call CPause; Call (CWrite (DString "Hello world" None))]
               (BufferedStream_new latin1Buffer None None) in
  _wait (stream w) = true /\
  (let w' := run_ticks latin1Buffer never_pauses 3 w in
   ticks w' = skipn 3 (ticks w) /\
   _wait (stream w') = true /\
   (exists k,
       log w' = log w ++ repeat EvEnd k /\
       (k <= count_endticks (firstn 3 (ticks w)))%nat /\
       (empty (stream w) = false -> k = 0%nat /\ stream w' = stream w))).
Proof.
  split.
  - reflexivity.
  - apply (@paused_is_dormant latin1Buffer never_pauses None None
             [Call CPause; Call (CWrite (DString "Hello world" None))] 3).
    reflexivity.
Defined.

(** C6 on a stream just made. *)
Lemma end_terminates_witness :
  let w := BufferedStream_new latin1Buffer None None in
  (empty (stream w) = true /\ _wait (stream w) = false /\ ended (stream w) = false) /\
  (let w1 := step latin1Buffer never_pauses (Call (CEnd None)) w in
   let w2 := run_ticks latin1Buffer never_pauses (S (List.length (ticks w))) w1 in
   throws (end_ latin1Buffer None w) = false /\
   ticks w2 = [] /\
   count_end (log w2) = S (count_end (log w) + count_endticks (ticks w)) /\
   readable (stream w2) = false /\
   writable (stream w2) = false).
Proof.
  split.
  - repeat split; reflexivity.
  - apply (@end_terminates latin1Buffer never_pauses (BufferedStream_new latin1Buffer None None));
      reflexivity.
Defined.

Example one_finalization_step :
  let w := step latin1Buffer never_pauses Tick
             (step latin1Buffer never_pauses (Call (CEnd None)) (BufferedStream_new latin1Buffer None None)) in
  log w = [EvEnd] /\ ticks w = [] /\
  readable (stream w) = false /\ writable (stream w) = false.
Proof. vm_compute. repeat split; reflexivity. Qed.

(** C7 fails on the code: [destroy] on a stream with a queued chunk empties
    the buffer and leaves [size] at the chunk's length. *)
Lemma destroy_breaks_accounting :
  let w := run latin1Buffer never_pauses [Call (CWrite (DString "a" None)); Call CDestroy]
               (BufferedStream_new latin1Buffer None None) in
  size (stream w) = 1 /\
  _buffer (stream w) = [] /\
  sum_lengths (_buffer (stream w)) = 0 /\
  empty (stream w) = true.
Proof. vm_compute. repeat split; reflexivity. Qed.

(** [full] is then stuck as well: a destroyed stream of capacity 0 reports a
    full buffer that holds nothing. *)
Example destroy_leaves_full :
  let w := run latin1Buffer never_pauses [Call (CWrite (DString "a" None)); Call CDestroy; Call CFlush]
               (BufferedStream_new latin1Buffer (Some 0) None) in
  full (stream w) = true /\ empty (stream w) = true /\ count_drain (log w) = 0%nat.
Proof. vm_compute. repeat split; reflexivity. Qed.


(** C9 with data queued: [size] stays at 11 and [empty] turns true. *)
Example destroy_keeps_size :
  let w := run latin1Buffer never_pauses [Call (CWrite (DString "Hello world" None))]
               (BufferedStream_new latin1Buffer None None) in
  size (stream w) = 11 /\ empty (stream w) = false /\
  size (stream (after (destroy w))) = 11 /\ empty (stream (after (destroy w))) = true.
Proof. vm_compute. repeat split; reflexivity. Qed.

(** C10 on [write("")]. *)
Lemma write_zero_length_witness :
  let w := BufferedStream_new latin1Buffer None None in
  let d := DString "" None in
  exists b w',
    write latin1Buffer d w = Normal b w' /\
    _buffer (stream w') = _buffer (stream w) ++ [toChunk latin1Buffer d] /\
    empty (stream w') = false /\
    size (stream w') = size (stream w).
Proof.
  apply (@write_zero_length latin1Buffer (DString "" None)
           (BufferedStream_new latin1Buffer None None)); reflexivity.
Defined.

(** ** The further properties on concrete streams *)

(** X3 on a stream that was ended and then resumed. *)
Lemma closed_stream_rejects_forever_witness :
  let w := run latin1Buffer never_pauses [Call (CEnd None)]
               (BufferedStream_new latin1Buffer None None) in
  let w' := run latin1Buffer never_pauses [Call CResume; Tick; Tick] w in
  write latin1Buffer (DString "x" None) w' = Thrown "Stream is not writable" w' /\
  (ended (stream w) = true ->
   end_ latin1Buffer None w' = Thrown "Stream is already ended" w').
Proof.
  apply (@closed_stream_rejects_forever latin1Buffer never_pauses
           [Call CResume; Tick; Tick] (DString "x" None) None
           (run latin1Buffer never_pauses [Call (CEnd None)]
                (BufferedStream_new latin1Buffer None None))).
  reflexivity.
Defined.

(** X5 on a stream made without a limit and written to. *)
Lemma unlimited_never_full_witness :
  let w := run latin1Buffer never_pauses
               [Call (CWrite (DString "Hello world" None)); Tick]
               (BufferedStream_new latin1Buffer None None) in
  full (stream w) = false /\
  count_drain (log w) = 0%nat /\
  (writable (stream w) = true -> ended (stream w) = false ->
   exists w', write latin1Buffer (DString "more" None) w = Normal true w').
Proof.
  apply (@unlimited_never_full latin1Buffer never_pauses None None
           [Call (CWrite (DString "Hello world" None)); Tick] (DString "more" None)).
  reflexivity.
Defined.

(** X6 on a stream destroyed with a chunk queued. *)
Lemma destroyed_emits_no_data_witness :
  let w := run latin1Buffer never_pauses
               [Call (CWrite (DString "a" None)); Call CDestroy]
               (BufferedStream_new latin1Buffer None None) in
  let w' := run latin1Buffer never_pauses [Tick; Call CResume; Call CFlush; Tick] w in
  data_chunks (log w') = data_chunks (log w) /\
  readable (stream w') = false.
Proof.
  apply (@destroyed_emits_no_data latin1Buffer never_pauses
           [Tick; Call CResume; Call CFlush; Tick]
           (run latin1Buffer never_pauses
                [Call (CWrite (DString "a" None)); Call CDestroy]
                (BufferedStream_new latin1Buffer None None))).
  reflexivity.
Defined.

(** X7 on a stream made from a string, after its two callbacks. *)
Lemma no_data_after_end_witness :
  let w := run latin1Buffer never_pauses [Tick; Tick]
               (BufferedStream_new latin1Buffer None (Some (DString "Hello" None))) in
  data_chunks (log (run latin1Buffer never_pauses [Call CResume; Tick; Call CFlush] w))
  = data_chunks (log w).
Proof.
  apply (@no_data_after_end latin1Buffer never_pauses None
           (Some (DString "Hello" None)) [Tick; Tick] [Call CResume; Tick; Call CFlush]).
  right. left. reflexivity.
Defined.

(** X9 on a stream just made. *)
Lemma write_schedules_once_witness :
  let w := BufferedStream_new latin1Buffer None None in
  let w1 := step latin1Buffer never_pauses (Call (CWrite (DString "a" None))) w in
  let w2 := step latin1Buffer never_pauses (Call (CWrite (DString "b" None))) w1 in
  _flushing (stream w1) = true /\
  ticks w1 = (if _flushing (stream w) then ticks w else ticks w ++ [FlushTick]) /\
  ticks w2 = ticks w1 /\
  _buffer (stream w2)
  = _buffer (stream w)
      ++ [toChunk latin1Buffer (DString "a" None); toChunk latin1Buffer (DString "b" None)].
Proof.
  apply (@write_schedules_once latin1Buffer never_pauses
           (DString "a" None) (DString "b" None)
           (BufferedStream_new latin1Buffer None None)); reflexivity.
Defined.

(** X10 on a paused stream with a chunk queued. *)
Lemma end_with_chunk_composes_witness :
  let w := run latin1Buffer never_pauses [Call CPause; Call (CWrite (DString "a" None))]
               (BufferedStream_new latin1Buffer None None) in
  step latin1Buffer never_pauses (Call (CEnd (Some (DString "b" None)))) w
  = run latin1Buffer never_pauses
        [Call (CWrite (DString "b" None)); Call (CEnd None)] w.
Proof.
  apply (@end_with_chunk_composes latin1Buffer never_pauses (DString "b" None)
           (run latin1Buffer never_pauses [Call CPause; Call (CWrite (DString "a" None))]
                (BufferedStream_new latin1Buffer None None))).
  reflexivity.
Defined.

(** X11 on a stream that was paused, written to, and resumed after its
    callback had gone dormant. *)
Lemma queued_data_has_a_callback_witness :
  let w := run latin1Buffer never_pauses
               [Call CPause; Call (CWrite (DString "a" None)); Tick; Call CResume]
               (BufferedStream_new latin1Buffer None None) in
  _flushing (stream w) = true /\
  (_wait (stream w) = false -> In FlushTick (ticks w)).
Proof.
  apply (@queued_data_has_a_callback latin1Buffer never_pauses None None
           [Call CPause; Call (CWrite (DString "a" None)); Tick; Call CResume]).
  - repeat constructor.
  - reflexivity.
Defined.

(** X12 on the same run, before [end] is ever called. *)
Lemma unpaused_stream_delivers_witness :
  let acts := [Call CPause; Call (CWrite (DString "a" None)); Tick; Call CResume;
               Call (CWrite (DString "b" None))] in
  let w0 := BufferedStream_new latin1Buffer None None in
  let w := run latin1Buffer never_pauses acts w0 in
  let w' := run_ticks latin1Buffer never_pauses (2 * List.length (ticks w)) w in
  ticks w' = [] /\
  _buffer (stream w') = [] /\
  data_chunks (log w')
  = source_chunks latin1Buffer None ++ accepted latin1Buffer never_pauses acts w0.
Proof.
  apply (@unpaused_stream_delivers latin1Buffer never_pauses None None
           [Call CPause; Call (CWrite (DString "a" None)); Tick; Call CResume;
            Call (CWrite (DString "b" None))]).
  - repeat constructor.
  - reflexivity.
  - intros evs. reflexivity.
Defined.

(** X13 on a paused stream with a chunk queued. *)
Lemma flush_does_nothing_when_blocked_witness :
  let w := run latin1Buffer never_pauses [Call CPause; Call (CWrite (DString "a" None))]
               (BufferedStream_new latin1Buffer (Some 0) None) in
  step latin1Buffer never_pauses (Call CFlush) w = w.
Proof.
  apply (@flush_does_nothing_when_blocked latin1Buffer never_pauses (Some 0) None
           [Call CPause; Call (CWrite (DString "a" None))]).
  reflexivity.
Defined.

(** X14 on a stream of capacity 0 with two chunks queued. *)
Lemma flush_drains_now_witness :
  let w := run latin1Buffer never_pauses
               [Call (CWrite (DString "a" None)); Call (CWrite (DString "bc" None))]
               (BufferedStream_new latin1Buffer (Some 0) None) in
  let w' := step latin1Buffer never_pauses (Call CFlush) w in
  _buffer (stream w') = [] /\
  size (stream w') = size (stream w) - sum_lengths (_buffer (stream w)) /\
  ticks w' = ticks w /\
  _wait (stream w') = false /\
  log w' = log w
           ++ data_events (truthy_encoding (encoding (stream w))) (_buffer (stream w))
           ++ (if _wasFull (stream w)
                  && negb ((0 <=? maxSize (stream w))
                           && (maxSize (stream w)
                               <? size (stream w) - sum_lengths (_buffer (stream w))))
               then [EvDrain] else []).
Proof.
  apply (@flush_drains_now latin1Buffer never_pauses
           (run latin1Buffer never_pauses
                [Call (CWrite (DString "a" None)); Call (CWrite (DString "bc" None))]
                (BufferedStream_new latin1Buffer (Some 0) None))).
  - reflexivity.
  - reflexivity.
  - intros evs. reflexivity.
Defined.

(** X15 on a chunk written before the encoding is set. *)
Lemma encoding_applies_at_emission_witness :
  let w := run latin1Buffer never_pauses [Call (CWrite (DString "a" None))]
               (BufferedStream_new latin1Buffer None None) in
  let w1 := step latin1Buffer never_pauses (Call (CSetEncoding (Some "utf8"%string))) w in
  let w2 := step latin1Buffer never_pauses (Call CFlush) w1 in
  w1 = mkWorld (set_encoding (Some "utf8"%string) (stream w)) (ticks w) (log w) /\
  exists tail,
    log w2 = log w
             ++ data_events (truthy_encoding (Some "utf8"%string)) (_buffer (stream w))
             ++ tail /\
    data_chunks tail = [].
Proof.
  apply (@encoding_applies_at_emission latin1Buffer never_pauses (Some "utf8"%string)
           (run latin1Buffer never_pauses [Call (CWrite (DString "a" None))]
                (BufferedStream_new latin1Buffer None None))).
  - reflexivity.
  - reflexivity.
  - intros evs. reflexivity.
Defined.

(** The empty string as encoding is no encoding: the chunk goes out as a
    Buffer. *)
Example empty_encoding_is_raw :
  let w := run latin1Buffer never_pauses
               [Call (CWrite (DString "a" None)); Call (CSetEncoding (Some ""%string)); Tick]
               (BufferedStream_new latin1Buffer None None) in
  log w = [EvData (list_byte_of_string "a") None].
Proof. vm_compute. reflexivity. Qed.

(** X17 on a run that writes, drains and ends. *)
Lemma size_accounts_witness :
  let s := stream (run latin1Buffer never_pauses
                       [Call (CWrite (DString "ab" None)); Call CPause;
                        Call (CWrite (DString "c" None)); Tick; Call CResume; Tick;
                        Call (CEnd None); Tick]
                       (BufferedStream_new latin1Buffer None None)) in
  size s = sum_lengths (_buffer s) /\
  (readable s = false -> _buffer s = [] /\ size s = 0).
Proof.
  apply (@size_accounts_without_direct_destroy latin1Buffer never_pauses None None
           [Call (CWrite (DString "ab" None)); Call CPause;
            Call (CWrite (DString "c" None)); Tick; Call CResume; Tick;
            Call (CEnd None); Tick]).
  repeat constructor.
Defined.
